(** * graphene_sqlalchemy_filter.connection_field: the batched nested-relation loader

    A shallow embedding of [ModelLoader] and
    [NestedFilterableConnectionField] from
    [graphene_sqlalchemy_filter/connection_field.py], with the request
    context, the loader registry and the loaders kept in an explicit store,
    Python exceptions as a result type, and SQLAlchemy queries as the terms
    the code builds. *)

From Stdlib Require Import ZArith.
From stdpp Require Import gmap strings list fin_maps.

Open Scope string_scope.
Open Scope list_scope.

(** ** Python values *)

(** Primary-key values: what [DataLoader.load] receives and what the
    [objects] dictionary of [batch_load_fn] is keyed by. *)
Inductive Key :=
| KInt (z : Z)
| KStr (s : string).

Global Instance Key_eq_dec : EqDecision Key.
Proof. solve_decision. Defined.

Global Instance Key_countable : Countable Key :=
  inj_countable'
    (fun k => match k with KInt z => inl z | KStr s => inr s end)
    (fun x => match x with inl z => KInt z | inr s => KStr s end)
    (fun k => match k with KInt _ => eq_refl | KStr _ => eq_refl end).

(** Values found in the field arguments ([**kwargs] of the resolver). *)
#[warnings="-register-all"]
Inductive PyVal :=
| PNone
| PBool (b : bool)
| PInt (z : Z)
| PStr (s : string)
| PList (l : list PyVal)
| PDict (kvs : list (string * PyVal))
| PObject (attributes : list (string * PyVal)).

(** Python truth value testing ([if x:]). *)
Definition truthy (v : PyVal) : bool :=
  match v with
  | PNone => false
  | PBool b => b
  | PInt z => negb (Z.eqb z 0)
  | PStr s => negb (String.eqb s "")
  | PList l => negb (Nat.eqb (length l) 0)
  | PDict kvs => negb (Nat.eqb (length kvs) 0)
  | PObject _ => true
  end.

(** [isinstance(v, list)] *)
Definition isinstance_list (v : PyVal) : bool :=
  match v with PList _ => true | _ => false end.

Inductive Exception :=
| ModelNotSupported (count : nat) (model : string)
| AttributeError
| KeyError
| TypeError
| IndexError.

Inductive Result (A : Type) :=
| Ok (a : A)
| Raise (e : Exception).
Arguments Ok {A} a.
Arguments Raise {A} e.

Definition is_Ok {A} (r : Result A) : bool :=
  match r with Ok _ => true | Raise _ => false end.

Definition rbind {A B} (r : Result A) (f : A -> Result B) : Result B :=
  match r with
  | Ok a => f a
  | Raise e => Raise e
  end.

Notation "'let?' x := r 'in' k" := (rbind r (fun x => k))
  (at level 10, x name, r at level 100, k at level 200).

Fixpoint rmap {A B} (f : A -> Result B) (l : list A) : Result (list B) :=
  match l with
  | [] => Ok []
  | x :: l' =>
      let? y := f x in
      let? ys := rmap f l' in
      Ok (y :: ys)
  end.

(** [getattr(obj, name)] on a value of the field arguments. *)
Definition pyval_getattr (v : PyVal) (name : string) : Result PyVal :=
  match v with
  | PObject attributes =>
      match (list_to_map attributes : gmap string PyVal) !! name with
      | Some x => Ok x
      | None => Raise AttributeError
      end
  | _ => Raise AttributeError
  end.

(** ** SQLAlchemy models and ORM objects *)

Record Column := { primary_key : bool }.

(** A mapped class: [inspection.inspect(model).columns.items()], the
    relationship attributes of the class, and the names of the other
    attributes that the class has, its own and inherited ones ([metadata],
    methods, ...). *)
Record Model := {
  model_name : string;
  columns : list (string * Column);
  relationships : list string;
  class_attributes : list string;
}.

(** The value of [getattr(Model, name)]: the instrumented attribute of a
    column or of a relationship, or another attribute of the class. *)
Inductive ClassAttr :=
| InstrumentedAttribute (owner : string) (key : string)
| ClassAttribute (owner : string) (name : string).

(** [getattr(model, name)] without a default: it finds every attribute of
    the class and raises [AttributeError] for any other name. *)
Definition model_getattr (m : Model) (name : string) : Result ClassAttr :=
  if decide (name ∈ (columns m).*1 ++ relationships m)
  then Ok (InstrumentedAttribute (model_name m) name)
  else if decide (name ∈ class_attributes m)
  then Ok (ClassAttribute (model_name m) name)
  else Raise AttributeError.

(** The name under which a class attribute is found on the class and on
    its instances. *)
Definition attr_name (a : ClassAttr) : string :=
  match a with
  | InstrumentedAttribute _ key => key
  | ClassAttribute _ name => name
  end.

(** A loaded child object, as its column values. *)
Definition ChildRow : Type := list (string * Key).

(** An attribute value of a loaded parent object: a column value or the
    collection behind a relationship. *)
Inductive AttrValue :=
| AScalar (k : Key)
| ARelated (rows : list ChildRow).

Record OrmObject := {
  type_of : Model;
  attrs : gmap string AttrValue;
}.

Definition getattr (o : OrmObject) (name : string) : Result AttrValue :=
  match attrs o !! name with
  | Some v => Ok v
  | None => Raise AttributeError
  end.

(** ** Resolve info *)

Definition FilterSet : Type := string.

Record ArgumentType := { graphene_type : option FilterSet }.

Record SchemaField := { field_args : gmap string ArgumentType }.

(** An element of [info.path]: a response key or a list index. *)
Inductive PathSegment :=
| PathName (name : string)
| PathIndex (i : nat).

(** [isinstance(p, str)] on a path element. *)
Definition path_str (p : PathSegment) : option string :=
  match p with
  | PathName name => Some name
  | PathIndex _ => None
  end.

(** The parts of [ResolveInfo] the module reads; [info.context] is the
    context of the store below. *)
Record ResolveInfo := {
  field_name : string;
  field_asts : list string;
  parent_type_fields : gmap string SchemaField;
  path : list PathSegment;
}.

(** ** Queries, as the terms the code composes *)

#[warnings="-register-all"]
Inductive Query :=
| get_query (model : Model)
| filter_set_filter (fs : FilterSet) (info : ResolveInfo) (q : Query)
    (request_filters : PyVal)
| order_by (q : Query) (cols : list PyVal)
| join (q : Query) (target : Aliased) (rel : ClassAttr)
| options (q : Query) (opts : list LoaderOption)
| filter_in (q : Query) (col : ClassAttr) (keys : list Key)
with Aliased :=
| aliased (entity : Model) (subquery : Query)
with LoaderOption :=
| contains_eager (rel : ClassAttr) (alias : Aliased)
| load_only (m : Model) (field : string).

Definition DEFAULT_FILTER_ARG : string := "filters".
Definition dataloaders_field : string := "_sqla_filter_dataloaders".

(** ** ModelLoader *)

(** The instance attributes set by [ModelLoader.__init__], the class
    attribute [filter_arg], and the pending keys and key cache of the
    [DataLoader] base class. *)
Record ModelLoader := {
  info : ResolveInfo;
  graphql_args : gmap string PyVal;
  model : Model;
  parent_model : Model;
  parent_model_pk_field : string;
  model_relation_field : string;
  relation : ClassAttr;
  filter_arg : string;
  _queue : list Key;
  _promise_cache : gset Key;
}.

(** [ModelLoader._get_model_pk_field_name] *)
Definition _get_model_pk_field_name (m : Model) : Result string :=
  let model_pk_fields :=
    (filter (fun nc => primary_key nc.2 = true) (columns m)).*1 in
  if negb (Nat.eqb (length model_pk_fields) 1)
  then Raise (ModelNotSupported (length model_pk_fields) (model_name m))
  else
    match model_pk_fields !! 0%nat with
    | Some model_pk_field => Ok model_pk_field
    | None => Raise IndexError
    end.

(** [ModelLoader._get_filter_set] *)
Definition _get_filter_set (filter_arg : string) (info : ResolveInfo)
  : Result FilterSet :=
  match field_asts info !! 0%nat with
  | None => Raise IndexError
  | Some field_name =>
      match parent_type_fields info !! field_name with
      | None => Raise AttributeError
      | Some schema_field =>
          match field_args schema_field !! filter_arg with
          | None => Raise KeyError
          | Some filters_type =>
              match graphene_type filters_type with
              | None => Raise AttributeError
              | Some filters => Ok filters
              end
          end
      end
  end.

(** [dict.get(key)]: [None] when the key is absent. *)
Definition dict_get (d : gmap string PyVal) (key : string) : PyVal :=
  default PNone (d !! key).

(** [ModelLoader._get_query] *)
Definition _get_query (self : ModelLoader) : Result Query :=
  let subquery := get_query (model self) in
  let request_filters := dict_get (graphql_args self) (filter_arg self) in
  let? subquery :=
    if truthy request_filters
    then
      let? filter_set := _get_filter_set (filter_arg self) (info self) in
      Ok (filter_set_filter filter_set (info self) subquery request_filters)
    else Ok subquery in
  let sort := dict_get (graphql_args self) "sort" in
  let? subquery :=
    if truthy sort && isinstance_list sort
    then
      match sort with
      | PList cols =>
          let? values := rmap (fun col => pyval_getattr col "value") cols in
          Ok (order_by subquery values)
      | _ => Ok subquery
      end
    else Ok subquery in
  let aliased_model := aliased (model self) subquery in
  Ok (options
        (join (get_query (parent_model self)) aliased_model (relation self))
        [contains_eager (relation self) aliased_model;
         load_only (parent_model self) (parent_model_pk_field self)]).

(** [ModelLoader.parent_model_object_to_key] *)
Definition parent_model_object_to_key (self : ModelLoader)
    (parent_object : OrmObject) : Result AttrValue :=
  getattr parent_object (parent_model_pk_field self).

(** ** The store of one request *)

(** What the extension slot of the context can hold: [None], a dictionary
    (by reference), or a value that is not a mapping. *)
Inductive CtxValue :=
| CtxNone
| CtxDict (ref : nat)
| CtxOther.

(** The two shapes of [info.context]: a [dict] or an object with
    attributes. *)
Inductive ContextShape :=
| Mapping
| Object.

Record Context := {
  shape : ContextShape;
  items : gmap string CtxValue;
}.

(** The request context, the heap of registry dictionaries (tree-location
    key to loader reference), the heap of loaders, and the log of the
    retrievals run so far, each with the loader that ran it. *)
Record State := {
  context : Context;
  dicts : list (gmap (list string) nat);
  loaders : list ModelLoader;
  executed : list (nat * Query);
}.

Definition set_loaders (s : State) (ls : list ModelLoader) : State :=
  {| context := context s;
     dicts := dicts s;
     loaders := ls;
     executed := executed s |}.

Definition set_executed (s : State) (log : list (nat * Query)) : State :=
  {| context := context s;
     dicts := dicts s;
     loaders := loaders s;
     executed := log |}.

(** A loader with other pending keys and another key cache. *)
Definition set_pending (loader : ModelLoader) (queue : list Key)
    (cache : gset Key) : ModelLoader :=
  {| info := info loader;
     graphql_args := graphql_args loader;
     model := model loader;
     parent_model := parent_model loader;
     parent_model_pk_field := parent_model_pk_field loader;
     model_relation_field := model_relation_field loader;
     relation := relation loader;
     filter_arg := filter_arg loader;
     _queue := queue;
     _promise_cache := cache |}.

Definition M (A : Type) : Type := State -> State * Result A.

Definition mret {A} (a : A) : M A := fun s => (s, Ok a).

Definition mbind {A B} (m : M A) (f : A -> M B) : M B :=
  fun s =>
    match m s with
    | (s', Ok a) => f a s'
    | (s', Raise e) => (s', Raise e)
    end.

Definition lift {A} (r : Result A) : M A := fun s => (s, r).

Notation "'let!' x := m 'in' k" := (mbind m (fun x => k))
  (at level 10, x name, m at level 100, k at level 200).

(** [context[dataloaders_field] = {}] for a mapping,
    [setattr(context, dataloaders_field, {})] for an object: a new
    dictionary on the heap, and a reference to it in the slot. *)
Definition new_data_loaders : M CtxValue :=
  fun s =>
    let ref := length (dicts s) in
    ({| context := {| shape := shape (context s);
                      items := <[dataloaders_field := CtxDict ref]>
                                 (items (context s)) |};
        dicts := dicts s ++ [∅];
        loaders := loaders s;
        executed := executed s |}, Ok (CtxDict ref)).

(** Lines 290-303 of [_get_or_create_data_loader]: find the extension slot
    of the context or create it. *)
Definition get_data_loaders : M CtxValue :=
  fun s =>
    match shape (context s) with
    | Mapping =>
        match items (context s) !! dataloaders_field with
        | Some data_loaders => (s, Ok data_loaders)
        | None => new_data_loaders s
        end
    | Object =>
        match default CtxNone (items (context s) !! dataloaders_field) with
        | CtxNone => new_data_loaders s
        | data_loaders => (s, Ok data_loaders)
        end
    end.

(** [data_loaders[data_loader_key]]: [Ok None] stands for [KeyError], which
    the caller catches; a value that is no dictionary cannot be subscripted
    with a tuple. *)
Definition registry_lookup (data_loaders : CtxValue)
    (data_loader_key : list string) : M (option nat) :=
  fun s =>
    match data_loaders with
    | CtxDict ref =>
        match dicts s !! ref with
        | Some d => (s, Ok (d !! data_loader_key))
        | None => (s, Raise TypeError)
        end
    | _ => (s, Raise TypeError)
    end.

(** A new loader object on the heap. *)
Definition new_loader (loader : ModelLoader) : M nat :=
  fun s => (set_loaders s (loaders s ++ [loader]), Ok (length (loaders s))).

(** [data_loaders[data_loader_key] = current_data_loader] *)
Definition registry_store (data_loaders : CtxValue)
    (data_loader_key : list string) (current_data_loader : nat) : M unit :=
  fun s =>
    match data_loaders with
    | CtxDict ref =>
        ({| context := context s;
            dicts := alter (insert data_loader_key current_data_loader)
                       ref (dicts s);
            loaders := loaders s;
            executed := executed s |}, Ok tt)
    | _ => (s, Raise TypeError)
    end.

(** [tuple((p for p in info.path if isinstance(p, str)))] *)
Definition data_loader_key (info : ResolveInfo) : list string :=
  omap path_str (path info).

Definition deref (l : nat) : M ModelLoader :=
  fun s =>
    match loaders s !! l with
    | Some loader => (s, Ok loader)
    | None => (s, Raise TypeError)
    end.

(** The handle a submission returns: the loader and the key it waits for. *)
Definition Handle : Type := nat * Key.

(** Modelled from the spec: [DataLoader.load] of the promise library, the
    base class of [ModelLoader], is not part of the module. A key is
    queued for the batch that has not fired yet unless it was submitted
    before; the pending keys stay in the order of their first submission. *)
Definition load (l : nat) (key : Key) : M Handle :=
  fun s =>
    match loaders s !! l with
    | None => (s, Raise TypeError)
    | Some loader =>
        if decide (key ∈ _promise_cache loader)
        then (s, Ok (l, key))
        else
          (set_loaders s
             (<[l := set_pending loader (_queue loader ++ [key])
                       ({[key]} ∪ _promise_cache loader)]> (loaders s)),
           Ok (l, key))
    end.

(** Modelled from the spec: the batch of a loader is taken when it fires;
    submissions after that start a new batch. *)
Definition take_queue (l : nat) : M (list Key) :=
  fun s =>
    match loaders s !! l with
    | None => (s, Raise TypeError)
    | Some loader =>
        (set_loaders s
           (<[l := set_pending loader [] (_promise_cache loader)]> (loaders s)),
         Ok (_queue loader))
    end.

(** The dictionary comprehension of [batch_load_fn]: later objects with the
    same key replace earlier ones; a key that is a collection cannot be
    hashed. *)
Fixpoint build_objects (self : ModelLoader) (rows : list OrmObject)
    (objects : gmap Key AttrValue) : Result (gmap Key AttrValue) :=
  match rows with
  | [] => Ok objects
  | parent_object :: rest =>
      let? key := parent_model_object_to_key self parent_object in
      let? value := getattr parent_object (model_relation_field self) in
      match key with
      | AScalar k => build_objects self rest (<[k := value]> objects)
      | ARelated _ => Raise TypeError
      end
  end.

(** [objects.get(object_id, [])] *)
Definition objects_get (objects : gmap Key AttrValue) (object_id : Key)
  : AttrValue :=
  default (ARelated []) (objects !! object_id).

(** The value a loaded object has for a class attribute, when it is a
    key. *)
Definition attr_key (o : OrmObject) (col : ClassAttr) : option Key :=
  match attrs o !! attr_name col with
  | Some (AScalar k) => Some k
  | _ => None
  end.

(** [column.in_(keys)] evaluated on a loaded object. *)
Definition in_ (col : ClassAttr) (keys : list Key) (o : OrmObject) : bool :=
  match attr_key o col with
  | Some k => bool_decide (k ∈ keys)
  | None => false
  end.

Section Externals.

(** [graphene.utils.str_converters.to_snake_case] *)
Variable to_snake_case : string -> string.

(** The database behind the session: the parent objects, with the
    attributes the query loads, that iterating a composed query yields. *)
Variable engine : Query -> list OrmObject.

(** Iterating a query: [.filter(column.in_(keys))] keeps the objects whose
    column value is one of the keys. *)
Fixpoint rows_of (q : Query) : list OrmObject :=
  match q with
  | filter_in q' col keys =>
      filter (fun o => in_ col keys o = true) (rows_of q')
  | _ => engine q
  end.

(** [for parent_object in query]: one retrieval, logged with the loader
    that runs it. *)
Definition iterate (l : nat) (query : Query) : M (list OrmObject) :=
  fun s => (set_executed s (executed s ++ [(l, query)]), Ok (rows_of query)).

(** [ModelLoader.__init__] *)
Definition ModelLoader_init (parent_model model : Model) (info : ResolveInfo)
    (graphql_args : gmap string PyVal) : Result ModelLoader :=
  let? parent_model_pk_field := _get_model_pk_field_name parent_model in
  let model_relation_field := to_snake_case (field_name info) in
  let? relation := model_getattr parent_model model_relation_field in
  Ok {| info := info;
        graphql_args := graphql_args;
        model := model;
        parent_model := parent_model;
        parent_model_pk_field := parent_model_pk_field;
        model_relation_field := model_relation_field;
        relation := relation;
        filter_arg := DEFAULT_FILTER_ARG;
        _queue := [];
        _promise_cache := ∅ |}.

(** The body of [ModelLoader.batch_load_fn] for the loader object [self]
    stored at reference [l]. *)
Definition batch_load (l : nat) (self : ModelLoader) (keys : list Key)
  : M (list AttrValue) :=
  let! q := lift (_get_query self) in
  let! col := lift (model_getattr (parent_model self)
                      (parent_model_pk_field self)) in
  let query := filter_in q col keys in
  let! rows := iterate l query in
  let! objects := lift (build_objects self rows ∅) in
  mret (map (objects_get objects) keys).

(** [ModelLoader.batch_load_fn] *)
Definition batch_load_fn (l : nat) (keys : list Key) : M (list AttrValue) :=
  let! self := deref l in
  batch_load l self keys.

(** [NestedFilterableConnectionField._get_or_create_data_loader] *)
Definition _get_or_create_data_loader (root : OrmObject) (model : Model)
    (info : ResolveInfo) (args : gmap string PyVal) : M nat :=
  let! data_loaders := get_data_loaders in
  let data_loader_key := data_loader_key info in
  let! found := registry_lookup data_loaders data_loader_key in
  match found with
  | Some current_data_loader => mret current_data_loader
  | None =>
      let! loader := lift (ModelLoader_init (type_of root) model info args) in
      let! current_data_loader := new_loader loader in
      let! _ := registry_store data_loaders data_loader_key
                  current_data_loader in
      mret current_data_loader
  end.

(** [NestedFilterableConnectionField.connection_resolver], up to the
    submission of the key; shaping the resolved rows into a connection is
    left to [resolve_connection] of graphene-sqlalchemy. *)
Definition connection_resolver (model : Model) (root : OrmObject)
    (info : ResolveInfo) (kwargs : gmap string PyVal) : M Handle :=
  let! data_loader := _get_or_create_data_loader root model info kwargs in
  let! self := deref data_loader in
  let! root_pk_value := lift (parent_model_object_to_key self root) in
  match root_pk_value with
  | AScalar key => load data_loader key
  | ARelated _ => lift (Raise TypeError)
  end.

(** Modelled from the spec: at the end of a resolution wave a loader with
    pending keys fires once: its batch function is called on the pending
    keys, and each key is paired with its result. A loader without pending
    keys does not fire. *)
Definition dispatch_queue (l : nat) : M (list (Key * AttrValue)) :=
  let! keys := take_queue l in
  match keys with
  | [] => mret []
  | _ =>
      let! values := batch_load_fn l keys in
      mret (zip keys values)
  end.

(** Modelled from the spec: the wave boundary, where every loader of the
    request is given the chance to fire; a failing batch rejects its own
    handles only. *)
Fixpoint dispatch_all (refs : list nat) (s : State)
  : State * list (nat * Result (list (Key * AttrValue))) :=
  match refs with
  | [] => (s, [])
  | l :: rest =>
      let (s', r) := dispatch_queue l s in
      let (s'', rs) := dispatch_all rest s' in
      (s'', (l, r) :: rs)
  end.

Definition end_of_wave (s : State)
  : State * list (nat * Result (list (Key * AttrValue))) :=
  dispatch_all (seq 0 (length (loaders s))) s.

(** One invocation of a nested field: the arguments the resolver and the
    loader lookup receive. *)
Record Invocation := {
  inv_model : Model;
  inv_root : OrmObject;
  inv_info : ResolveInfo;
  inv_kwargs : gmap string PyVal;
}.

(** What can happen to the store during a request. *)
Inductive Event :=
| Lookup (i : Invocation)
| Resolve (i : Invocation)
| Wave.

Definition run_event (e : Event) (s : State) : State :=
  match e with
  | Lookup i =>
      (_get_or_create_data_loader (inv_root i) (inv_model i) (inv_info i)
         (inv_kwargs i) s).1
  | Resolve i =>
      (connection_resolver (inv_model i) (inv_root i) (inv_info i)
         (inv_kwargs i) s).1
  | Wave => (end_of_wave s).1
  end.

Definition run_events (es : list Event) (s : State) : State :=
  foldl (fun s e => run_event e s) s es.


End Externals.

(** ** Field classes and the field factory *)

Global Instance Column_eq_dec : EqDecision Column.
Proof. solve_decision. Defined.

Global Instance Model_eq_dec : EqDecision Model.
Proof. solve_decision. Defined.

Global Instance Column_countable : Countable Column :=
  inj_countable' primary_key (fun b => {| primary_key := b |})
    (fun c => match c with Build_Column _ => eq_refl end).

(** Model classes are dictionary keys in [filters] and [model_filters]. *)
Global Instance Model_countable : Countable Model :=
  inj_countable'
    (fun m => (model_name m, columns m, relationships m, class_attributes m))
    (fun t => {| model_name := t.1.1.1;
                 columns := t.1.1.2;
                 relationships := t.1.2;
                 class_attributes := t.2 |})
    (fun m => match m with Build_Model _ _ _ _ => eq_refl end).

(** A loader class: [ModelLoader] or a subclass made with [type(...)],
    which overrides the class attribute [filter_arg] only. *)
Record LoaderClass := {
  class_name : string;
  class_filter_arg : string;
}.

Definition ModelLoader_class : LoaderClass :=
  {| class_name := "ModelLoader"; class_filter_arg := DEFAULT_FILTER_ARG |}.

(** An instance of [FilterableFieldFactory]: [model_filters], and
    [model_loader_class], a class attribute that [__init_subclass__] may
    override on the instance. *)
Record FilterableFieldFactory := {
  model_filters : gmap Model FilterSet;
  model_loader_class : LoaderClass;
}.

(** What the class attribute [factory] can hold, besides [None]. *)
Inductive Factory :=
| filterable_factory (f : FilterableFieldFactory)
| default_connection_field_factory
| other_factory (name : string).

(** The class attributes of [FilterableConnectionField] and its
    subclasses. *)
Record FieldClass := {
  cls_filter_arg : string;
  cls_factory : option Factory;
  cls_filters : gmap Model FilterSet;
}.

(** [FilterableConnectionField.__init_subclass__], for the value of
    [graphene_sqlalchemy_version_lt_2_1_2]. *)
Definition FilterableConnectionField_init_subclass
    (graphene_sqlalchemy_version_lt_2_1_2 : bool) (cls : FieldClass)
  : FieldClass :=
  if graphene_sqlalchemy_version_lt_2_1_2 then cls
  else if bool_decide (cls_filters cls ≠ ∅)
          && bool_decide (cls_factory cls = None)
  then
    {| cls_filter_arg := cls_filter_arg cls;
       cls_factory :=
         Some (filterable_factory
                 {| model_filters := cls_filters cls;
                    model_loader_class :=
                      if bool_decide (cls_filter_arg cls ≠ DEFAULT_FILTER_ARG)
                      then {| class_name := "CustomModelLoader";
                              class_filter_arg := cls_filter_arg cls |}
                      else ModelLoader_class |});
       cls_filters := cls_filters cls |}
  else if bool_decide (cls_factory cls = None)
  then
    {| cls_filter_arg := cls_filter_arg cls;
       cls_factory := Some default_connection_field_factory;
       cls_filters := cls_filters cls |}
  else cls.

(** A connection type, with [connection._meta.node._meta.model]. *)
Record Connection := {
  connection_name : string;
  node_model : Model;
}.

(** The value of a keyword argument of a field: a filter set or another
    argument type. *)
Inductive FieldArg :=
| filter_set_arg (fs : FilterSet)
| other_arg (name : string).

(** A connection field as [SQLAlchemyConnectionField.__init__] receives
    it. *)
Record Field := {
  field_type : Connection;
  field_kwargs : gmap string FieldArg;
}.

(** [FilterableConnectionField.__init__]: the [KeyError] of
    [self.filters[model]] is suppressed. *)
Definition FilterableConnectionField_init (cls : FieldClass)
    (connection : Connection) (kwargs : gmap string FieldArg) : Field :=
  let kwargs :=
    if bool_decide (is_Some (kwargs !! cls_filter_arg cls))
    then kwargs
    else
      let model := node_model connection in
      match cls_filters cls !! model with
      | Some fs => <[cls_filter_arg cls := filter_set_arg fs]> kwargs
      | None => kwargs
      end in
  {| field_type := connection; field_kwargs := kwargs |}.

(** [NestedFilterableConnectionField], the [field_class] of the factory:
    it declares neither [filter_arg] nor [filters], and has the factory
    that [__init_subclass__] gives such a class. *)
Definition NestedFilterableConnectionField : FieldClass :=
  {| cls_filter_arg := DEFAULT_FILTER_ARG;
     cls_factory := Some default_connection_field_factory;
     cls_filters := ∅ |}.

(** A relationship, with [relationship.mapper.entity]. *)
Record Relationship := { mapper_entity : Model }.

(** A registered graphene type, with [model_type._meta.connection]. *)
Record GrapheneType := { type_connection : Connection }.

(** [dict.setdefault(key, value)] *)
Definition setdefault {A} (key : string) (value : A) (d : gmap string A)
  : gmap string A :=
  match d !! key with
  | Some _ => d
  | None => <[key := value]> d
  end.

(** [FilterableFieldFactory.__call__]: [registry] is [None] by default,
    and [registry.get_type_for_model] returns [None] for a model that is
    not registered. *)
Definition FilterableFieldFactory_call (self : FilterableFieldFactory)
    (relationship : Relationship)
    (registry : option (gmap Model GrapheneType))
    (field_kwargs : gmap string FieldArg) : Result Field :=
  let model := mapper_entity relationship in
  match registry with
  | None => Raise AttributeError
  | Some types =>
      let model_type := types !! model in
      let filters := model_filters self !! model in
      let field_kwargs :=
        match filters with
        | Some fs =>
            setdefault (class_filter_arg (model_loader_class self))
              (filter_set_arg fs) field_kwargs
        | None => field_kwargs
        end in
      match model_type with
      | None => Raise AttributeError
      | Some t =>
          Ok (FilterableConnectionField_init NestedFilterableConnectionField
                (type_connection t) field_kwargs)
      end
  end.

Section TopLevel.

(** [SQLAlchemyConnectionField.get_query] of graphene-sqlalchemy, which
    [FilterableConnectionField.get_query] extends. *)
Variable super_get_query :
  Model -> ResolveInfo -> PyVal -> gmap string PyVal -> Result Query.

(** [FilterableConnectionField.get_filter_set] *)
Definition get_filter_set (cls : FieldClass) (info : ResolveInfo)
  : Result FilterSet :=
  match field_asts info !! 0%nat with
  | None => Raise IndexError
  | Some field_name =>
      match parent_type_fields info !! field_name with
      | None => Raise AttributeError
      | Some schema_field =>
          match field_args schema_field !! cls_filter_arg cls with
          | None => Raise KeyError
          | Some filters_type =>
              match graphene_type filters_type with
              | None => Raise AttributeError
              | Some filters => Ok filters
              end
          end
      end
  end.

(** [FilterableConnectionField.get_query]: [sort] is a parameter of its
    own, so [args] holds the other request arguments. *)
Definition get_query_with_filters (cls : FieldClass) (model : Model)
    (info : ResolveInfo) (sort : PyVal) (args : gmap string PyVal)
  : Result Query :=
  let? query := super_get_query model info sort args in
  let request_filters := dict_get args (cls_filter_arg cls) in
  if truthy request_filters
  then
    let? filter_set := get_filter_set cls info in
    Ok (filter_set_filter filter_set info query request_filters)
  else Ok query.

End TopLevel.

(** ** Notions used to state the properties *)

Global Instance AttrValue_eq_dec : EqDecision AttrValue.
Proof. solve_decision. Defined.

(** The number of primary-key columns of a model. *)
Definition pk_count (m : Model) : nat :=
  length (filter (fun nc => primary_key nc.2 = true) (columns m)).

(** Step 4 of the composer: the parent query joined to the aliased child
    subquery, loading the relation from it and only the key of the parent. *)
Definition joined (self : ModelLoader) (subquery : Query) : Query :=
  options
    (join (get_query (parent_model self))
       (aliased (model self) subquery) (relation self))
    [contains_eager (relation self) (aliased (model self) subquery);
     load_only (parent_model self) (parent_model_pk_field self)].

(** A loader with other field arguments. *)
Definition with_args (self : ModelLoader) (args : gmap string PyVal)
  : ModelLoader :=
  {| info := info self;
     graphql_args := args;
     model := model self;
     parent_model := parent_model self;
     parent_model_pk_field := parent_model_pk_field self;
     model_relation_field := model_relation_field self;
     relation := relation self;
     filter_arg := filter_arg self;
     _queue := _queue self;
     _promise_cache := _promise_cache self |}.

(** A loader with another child model. *)
Definition with_model (self : ModelLoader) (m : Model) : ModelLoader :=
  {| info := info self;
     graphql_args := graphql_args self;
     model := m;
     parent_model := parent_model self;
     parent_model_pk_field := parent_model_pk_field self;
     model_relation_field := model_relation_field self;
     relation := relation self;
     filter_arg := filter_arg self;
     _queue := _queue self;
     _promise_cache := _promise_cache self |}.

(** The model a query selects from. *)
Fixpoint source_model (q : Query) : Model :=
  match q with
  | get_query m => m
  | filter_set_filter _ _ q' _ => source_model q'
  | order_by q' _ => source_model q'
  | join q' _ _ => source_model q'
  | options q' _ => source_model q'
  | filter_in q' _ _ => source_model q'
  end.

(** The parent objects of [rows] whose key is [k]. *)
Definition with_key (self : ModelLoader) (k : Key) (rows : list OrmObject)
  : list OrmObject :=
  filter (fun o => attrs o !! parent_model_pk_field self = Some (AScalar k))
    rows.

(** The child rows that belong to key [k] in the result of the composed
    query: the relation of the parent object with that key, and the empty
    sequence when there is none. *)
Definition related (self : ModelLoader) (rows : list OrmObject) (k : Key)
  : AttrValue :=
  match last (with_key self k rows) with
  | Some o => default (ARelated []) (attrs o !! model_relation_field self)
  | None => ARelated []
  end.

(** What a loader is built from, without its pending keys. *)
Definition config (loader : ModelLoader) : ModelLoader :=
  set_pending loader [] ∅.

(** The value in the extension slot of the context. *)
Definition slot (s : State) : option CtxValue :=
  items (context s) !! dataloaders_field.

(** The context has no extension slot yet. *)
Definition slot_absent (s : State) : Prop :=
  match shape (context s) with
  | Mapping => slot s = None
  | Object => slot s = None ∨ slot s = Some CtxNone
  end.

(** The registry of the request: the dictionary in the slot. *)
Definition registry (s : State) : gmap (list string) nat :=
  match slot s with
  | Some (CtxDict ref) => default ∅ (dicts s !! ref)
  | _ => ∅
  end.

(** The store is as the module leaves it: the slot is absent or holds a
    dictionary of the heap, and the registry maps different tree-locations
    to different loaders of the heap. *)
Record wf (s : State) : Prop := {
  wf_slot :
    slot_absent s ∨ ∃ ref, slot s = Some (CtxDict ref) ∧ ref < length (dicts s);
  wf_bound : ∀ k l, registry s !! k = Some l → l < length (loaders s);
  wf_inj :
    ∀ k k' l, registry s !! k = Some l → registry s !! k' = Some l → k = k';
}.


(** The store at the start of a request. *)
Definition request_start (s : State) : Prop :=
  slot_absent s ∧ loaders s = [] ∧ executed s = [].

(** The store [s'] is a later store of the request of [s]: the slot, the
    registry entries and the loaders of [s] are still there. *)
Record extends (s s' : State) : Prop := {
  ext_shape : shape (context s') = shape (context s);
  ext_slot : ∀ ref, slot s = Some (CtxDict ref) → slot s' = Some (CtxDict ref);
  ext_dicts :
    (∃ ref, slot s = Some (CtxDict ref)) → length (dicts s') = length (dicts s);
  ext_registry : registry s ⊆ registry s';
  ext_loaders : (config <$> loaders s) `prefix_of` (config <$> loaders s');
}.

(** The store [s'] differs from [s] in pending keys and the log only. *)
Record quiet (s s' : State) : Prop := {
  quiet_context : context s' = context s;
  quiet_dicts : dicts s' = dicts s;
  quiet_loaders : config <$> loaders s' = config <$> loaders s;
}.

(** The retrievals of the log run by loader [l]. *)
Definition retrievals_of (l : nat) (log : list (nat * Query))
  : list (nat * Query) :=
  filter (fun e => e.1 = l) log.

(** The three ways a loader lookup can go. *)
Inductive lookup_outcome (to_snake_case : string -> string)
    (root : OrmObject) (m : Model) (info : ResolveInfo)
    (args : gmap string PyVal) (s s' : State) (r : Result nat) : Prop :=
| lookup_found (l : nat) :
    registry s !! data_loader_key info = Some l →
    r = Ok l → s' = s →
    lookup_outcome to_snake_case root m info args s s' r
| lookup_failed (e : Exception) :
    registry s !! data_loader_key info = None →
    ModelLoader_init to_snake_case (type_of root) m info args = Raise e →
    r = Raise e → registry s' = registry s → loaders s' = loaders s →
    lookup_outcome to_snake_case root m info args s s' r
| lookup_created (loader : ModelLoader) :
    registry s !! data_loader_key info = None →
    ModelLoader_init to_snake_case (type_of root) m info args = Ok loader →
    r = Ok (length (loaders s)) →
    registry s' = <[data_loader_key info := length (loaders s)]> (registry s) →
    loaders s' = loaders s ++ [loader] →
    lookup_outcome to_snake_case root m info args s s' r.

(** One loader at the wave boundary: [log] is what the loader adds to the
    log of retrievals. *)
Record fired (l : nat) (loader : option ModelLoader)
    (log : list (nat * Query)) : Prop := {
  fired_at_most_once : (length log ≤ 1)%nat;
  fired_tag : ∀ e, e ∈ log → e.1 = l ∧ is_Some loader;
  fired_idle : (∀ ld, loader = Some ld → _queue ld = []) → log = [];
  fired_failed : ∀ ld e, loader = Some ld → _get_query ld = Raise e → log = [];
  fired_once :
    ∀ ld q col,
      loader = Some ld → _queue ld ≠ [] →
      _get_query ld = Ok q →
      model_getattr (parent_model ld) (parent_model_pk_field ld) = Ok col →
      log = [(l, filter_in q col (_queue ld))];
}.



(** Every loader of the heap is registered, and the registry has as many
    entries as the heap has loaders. *)
Record all_registered (s : State) : Prop := {
  reg_wf : wf s;
  reg_size : size (registry s) = length (loaders s);
  reg_onto :
    ∀ l, (l < length (loaders s))%nat → ∃ k, registry s !! k = Some l;
}.

(** Every loader of the heap is, up to its pending keys, the result of
    the loader constructor. *)
Definition all_constructed (to_snake_case : string -> string) (s : State)
  : Prop :=
  ∀ c, c ∈ config <$> loaders s →
       ∃ pm m rinfo args loader,
         ModelLoader_init to_snake_case pm m rinfo args = Ok loader
         ∧ c = config loader.

(** ** Example data *)

Module Examples.

Definition pk : Column := {| primary_key := true |}.
Definition plain : Column := {| primary_key := false |}.

(** The attributes that every class of a declarative base has besides its
    columns and relationships: those of the base and of [object]. *)
Definition declarative_attributes : list string :=
  ["metadata"; "_sa_class_manager"; "__table__"; "__mapper__";
   "__tablename__"; "__name__"; "__qualname__"; "__module__"; "__dict__";
   "__doc__"; "__weakref__"; "__class__"; "__bases__"; "__base__";
   "__mro__"; "mro"; "__subclasses__"; "__init__"; "__new__";
   "__subclasshook__"; "__repr__"; "__str__"; "__hash__"; "__eq__";
   "__ne__"; "__lt__"; "__le__"; "__gt__"; "__ge__"; "__getattribute__";
   "__setattr__"; "__delattr__"; "__dir__"; "__format__"; "__reduce__";
   "__reduce_ex__"; "__sizeof__"].

Definition User : Model :=
  {| model_name := "User";
     columns := [("id", pk); ("name", plain)];
     relationships := ["posts"];
     class_attributes := declarative_attributes |}.

Definition Post : Model :=
  {| model_name := "Post";
     columns := [("id", pk); ("user_id", plain)];
     relationships := [];
     class_attributes := declarative_attributes |}.

(** A child model with a composite primary key. *)
Definition Membership : Model :=
  {| model_name := "Membership";
     columns := [("user_id", pk); ("group_id", pk)];
     relationships := [];
     class_attributes := declarative_attributes |}.

(** A parent model with a composite primary key. *)
Definition Pair : Model :=
  {| model_name := "Pair";
     columns := [("left_id", pk); ("right_id", pk)];
     relationships := ["posts"];
     class_attributes := declarative_attributes |}.

(** The field [posts] under the [i]-th user of a [users] connection. *)
Definition posts_info (i : nat) : ResolveInfo :=
  {| field_name := "posts";
     field_asts := ["posts"];
     parent_type_fields :=
       {[ "posts" :=
            {| field_args :=
                 {[ "filters" := {| graphene_type := Some "PostFilter" |} ]} |} ]};
     path := [PathName "users"; PathName "edges"; PathIndex i;
              PathName "node"; PathName "posts"] |}.

(** The same relation requested at another place of the query tree. *)
Definition author_posts_info : ResolveInfo :=
  {| field_name := "posts";
     field_asts := ["posts"];
     parent_type_fields := ∅;
     path := [PathName "article"; PathName "author"; PathName "posts"] |}.

(** A field whose name is no attribute of [User]. *)
Definition comments_info : ResolveInfo :=
  {| field_name := "comments";
     field_asts := ["comments"];
     parent_type_fields := ∅;
     path := [PathName "users"; PathName "comments"] |}.

(** A field named after a class attribute that every declarative model
    has, and that is neither a column nor a relationship. *)
Definition metadata_info : ResolveInfo :=
  {| field_name := "metadata";
     field_asts := ["metadata"];
     parent_type_fields := ∅;
     path := [PathName "users"; PathName "metadata"] |}.

Definition user (i : Z) (rows : list ChildRow) : OrmObject :=
  {| type_of := User;
     attrs := {[ "id" := AScalar (KInt i); "posts" := ARelated rows ]} |}.

Definition row (i : Z) : ChildRow := [("id", KInt i)].

(** [to_snake_case] on names that are in snake case already. *)
Definition snake (s : string) : string := s.

(** A database in which only user 2 has posts, 10 and 11 in this order. *)
Definition db (q : Query) : list OrmObject := [user 2 [row 10; row 11]].

Definition posts_loader (args : gmap string PyVal) : ModelLoader :=
  {| info := posts_info 0;
     graphql_args := args;
     model := Post;
     parent_model := User;
     parent_model_pk_field := "id";
     model_relation_field := "posts";
     relation := InstrumentedAttribute "User" "posts";
     filter_arg := DEFAULT_FILTER_ARG;
     _queue := [];
     _promise_cache := ∅ |}.

Definition name_asc : PyVal := PObject [("value", PStr "name ASC")].

Definition fresh (sh : ContextShape) : State :=
  {| context := {| shape := sh; items := ∅ |};
     dicts := [];
     loaders := [];
     executed := [] |}.

Definition posts_of (n : nat) (u : OrmObject) (kwargs : gmap string PyVal)
  : Invocation :=
  {| inv_model := Post;
     inv_root := u;
     inv_info := posts_info n;
     inv_kwargs := kwargs |}.

Definition author_posts : Invocation :=
  {| inv_model := Post;
     inv_root := user 7 [];
     inv_info := author_posts_info;
     inv_kwargs := ∅ |}.





Definition one_loader : State :=
  {| context := {| shape := Mapping; items := ∅ |};
     dicts := [];
     loaders := [posts_loader ∅];
     executed := [] |}.

(** A loader on a field whose parent type is unknown to the schema. *)
Definition author_loader (args : gmap string PyVal) : ModelLoader :=
  {| info := author_posts_info;
     graphql_args := args;
     model := Post;
     parent_model := User;
     parent_model_pk_field := "id";
     model_relation_field := "posts";
     relation := InstrumentedAttribute "User" "posts";
     filter_arg := DEFAULT_FILTER_ARG;
     _queue := [];
     _promise_cache := ∅ |}.

Definition id_is_10 : PyVal := PDict [("id", PInt 10)].

(** A store whose only loader cannot compose its query. *)
Definition broken_loader : State :=
  {| context := {| shape := Mapping; items := ∅ |};
     dicts := [];
     loaders := [author_loader {[ "filters" := id_is_10 ]}];
     executed := [] |}.

Definition comments : Invocation :=
  {| inv_model := Post;
     inv_root := user 1 [];
     inv_info := comments_info;
     inv_kwargs := ∅ |}.

Definition users_path : ResolveInfo :=
  {| field_name := "edges";
     field_asts := ["edges"];
     parent_type_fields := ∅;
     path := [PathName "users"; PathName "edges"] |}.

Definition node_posts_path : ResolveInfo :=
  {| field_name := "posts";
     field_asts := ["posts"];
     parent_type_fields := ∅;
     path := [PathName "node"; PathName "posts"] |}.

Definition PostConnection : Connection :=
  {| connection_name := "PostConnection"; node_model := Post |}.

Definition types : gmap Model GrapheneType :=
  {[ Post := {| type_connection := PostConnection |} ]}.

(** A field class with filters and a filter argument of its own. *)
Definition where_field : FieldClass :=
  {| cls_filter_arg := "where";
     cls_factory := None;
     cls_filters := {[ Post := "PostFilter" ]} |}.

Definition where_factory : FilterableFieldFactory :=
  {| model_filters := {[ Post := "PostFilter" ]};
     model_loader_class :=
       {| class_name := "CustomModelLoader"; class_filter_arg := "where" |} |}.

(** The parent class query without a sort argument. *)
Definition plain_super (m : Model) (rinfo : ResolveInfo) (sort : PyVal)
    (args : gmap string PyVal) : Result Query :=
  Ok (get_query m).

End Examples.

(** ** Primary keys and loader construction *)

Lemma pk_field_name_ok (m : Model) :
  is_Ok (_get_model_pk_field_name m) = true ↔ pk_count m = 1.
Proof.
  unfold _get_model_pk_field_name, pk_count.
  rewrite length_fmap.
  destruct (filter _ (columns m)) as [|c [|c' cs]]; simpl; split;
    intros H; try done.
Qed.

Lemma pk_field_name_error (m : Model) :
  pk_count m ≠ 1 →
  _get_model_pk_field_name m
  = Raise (ModelNotSupported (pk_count m) (model_name m)).
Proof.
  unfold _get_model_pk_field_name, pk_count.
  rewrite length_fmap.
  destruct (filter _ (columns m)) as [|c [|c' cs]]; simpl; intros H; done.
Qed.


Section Construction.

Variable to_snake_case : string -> string.

Lemma init_raises_unsupported (pm m : Model) (info : ResolveInfo)
    (args : gmap string PyVal) :
  pk_count pm ≠ 1 →
  ModelLoader_init to_snake_case pm m info args
  = Raise (ModelNotSupported (pk_count pm) (model_name pm)).
Proof.
  intros H. unfold ModelLoader_init.
  by rewrite (pk_field_name_error pm H).
Qed.

Lemma init_ok_iff (pm m : Model) (info : ResolveInfo)
    (args : gmap string PyVal) :
  is_Ok (ModelLoader_init to_snake_case pm m info args) = true
  ↔ pk_count pm = 1
    ∧ to_snake_case (field_name info)
      ∈ (columns pm).*1 ++ relationships pm ++ class_attributes pm.
Proof.
  unfold ModelLoader_init.
  pose proof (pk_field_name_ok pm) as Hpk.
  rewrite app_assoc, (elem_of_app ((columns pm).*1 ++ relationships pm)).
  destruct (_get_model_pk_field_name pm) as [f|e]; simpl in *.
  - unfold model_getattr. repeat case_decide; simpl; intuition; discriminate.
  - intuition; discriminate.
Qed.


Lemma init_independent_of_child (pm m m' : Model) (info : ResolveInfo)
    (args : gmap string PyVal) :
  match ModelLoader_init to_snake_case pm m info args,
        ModelLoader_init to_snake_case pm m' info args with
  | Ok self, Ok self' => self' = with_model self m'
  | Raise e, Raise e' => e = e'
  | _, _ => False
  end.
Proof.
  unfold ModelLoader_init.
  destruct (_get_model_pk_field_name pm) as [f|e]; simpl; [|done].
  destruct (model_getattr pm _) as [r|e]; simpl; done.
Qed.

End Construction.

(** ** The query composer *)

Lemma dict_get_absent (d : gmap string PyVal) (key : string) :
  d !! key = None → dict_get d key = PNone.
Proof. unfold dict_get. by intros ->. Qed.

Lemma dict_get_present (d : gmap string PyVal) (key : string) (v : PyVal) :
  d !! key = Some v → dict_get d key = v.
Proof. unfold dict_get. by intros ->. Qed.

Lemma get_query_no_filter_no_sort (self : ModelLoader) :
  truthy (dict_get (graphql_args self) (filter_arg self)) = false →
  truthy (dict_get (graphql_args self) "sort")
  && isinstance_list (dict_get (graphql_args self) "sort") = false →
  _get_query self = Ok (joined self (get_query (model self))).
Proof.
  intros Hf Hs. unfold _get_query. rewrite Hf. simpl. by rewrite Hs.
Qed.

Lemma get_query_sort_only (self : ModelLoader) (cols values : list PyVal) :
  truthy (dict_get (graphql_args self) (filter_arg self)) = false →
  dict_get (graphql_args self) "sort" = PList cols →
  cols ≠ [] →
  rmap (fun col => pyval_getattr col "value") cols = Ok values →
  _get_query self
  = Ok (joined self (order_by (get_query (model self)) values)).
Proof.
  intros Hf Hs Hne Hv. unfold _get_query. rewrite Hf, Hs. simpl.
  destruct cols; [done|]. simpl length. cbn [Nat.eqb negb].
  by rewrite Hv.
Qed.

Lemma get_query_filter_only (self : ModelLoader) (v : PyVal)
    (fs : FilterSet) :
  dict_get (graphql_args self) (filter_arg self) = v →
  truthy v = true →
  _get_filter_set (filter_arg self) (info self) = Ok fs →
  truthy (dict_get (graphql_args self) "sort")
  && isinstance_list (dict_get (graphql_args self) "sort") = false →
  _get_query self
  = Ok (joined self
          (filter_set_filter fs (info self) (get_query (model self)) v)).
Proof.
  intros Hv Ht Hfs Hs. unfold _get_query. rewrite Hv, Ht, Hfs. simpl.
  by rewrite Hs.
Qed.

Lemma sort_skipped (v : PyVal) :
  isinstance_list v = false ∨ v = PList [] →
  truthy v && isinstance_list v = false.
Proof.
  intros [H| ->]; [|done]. rewrite H. apply andb_false_r.
Qed.

(** ** The batch function *)

Lemma build_objects_spec (self : ModelLoader) (rows : list OrmObject)
    (acc : gmap Key AttrValue) :
  (∀ o, o ∈ rows →
        (∃ k, attrs o !! parent_model_pk_field self = Some (AScalar k))
        ∧ is_Some (attrs o !! model_relation_field self)) →
  ∃ objects,
    build_objects self rows acc = Ok objects
    ∧ ∀ k, objects !! k
           = match last (with_key self k rows) with
             | Some o => attrs o !! model_relation_field self
             | None => acc !! k
             end.
Proof.
  revert acc. induction rows as [|o rows IH]; intros acc Hrows.
  - exists acc. by split.
  - destruct (Hrows o) as [[k0 Hk0] [v Hv]]; [by left|].
    destruct (IH (<[k0 := v]> acc)) as (objects & Hobj & Hlook).
    { intros o' Ho'. apply Hrows. by right. }
    exists objects. split.
    + simpl. unfold parent_model_object_to_key, getattr.
      by rewrite Hk0, Hv.
    + intros k. rewrite Hlook. unfold with_key.
      destruct (decide (k0 = k)) as [->|Hne].
      * rewrite (filter_cons_True _ o) by done.
        rewrite last_cons. destruct (last _); [done|].
        by rewrite lookup_insert_eq.
      * rewrite (filter_cons_False _ o) by (rewrite Hk0; congruence).
        destruct (last _); [done|]. by rewrite lookup_insert_ne.
Qed.

Lemma model_getattr_name (m : Model) (name : string) (a : ClassAttr) :
  model_getattr m name = Ok a → attr_name a = name.
Proof.
  unfold model_getattr. repeat case_decide; [| |done]; by intros [= <-].
Qed.

Lemma with_key_in_ (self : ModelLoader) (col : ClassAttr) (keys : list Key)
    (k : Key) (rows : list OrmObject) :
  attr_name col = parent_model_pk_field self →
  k ∈ keys →
  with_key self k (filter (fun o => in_ col keys o = true) rows)
  = with_key self k rows.
Proof.
  intros Hcol Hk. unfold with_key. apply list_filter_filter_l.
  intros o Ho. unfold in_, attr_key. rewrite Hcol, Ho.
  by apply bool_decide_eq_true.
Qed.

Lemma in_has_key (col : ClassAttr) (keys : list Key) (o : OrmObject) :
  in_ col keys o = true →
  ∃ k, attrs o !! attr_name col = Some (AScalar k).
Proof.
  unfold in_, attr_key.
  destruct (attrs o !! attr_name col) as [[k|]|]; [|done..]. by exists k.
Qed.

Lemma objects_get_related (self : ModelLoader) (rows : list OrmObject)
    (objects : gmap Key AttrValue) (k : Key) :
  objects !! k
  = match last (with_key self k rows) with
    | Some o => attrs o !! model_relation_field self
    | None => None
    end →
  objects_get objects k = related self rows k.
Proof.
  unfold objects_get, related. intros ->. by destruct (last _).
Qed.

Lemma related_no_match (self : ModelLoader) (rows : list OrmObject)
    (k : Key) :
  (∀ o, o ∈ rows →
        attrs o !! parent_model_pk_field self ≠ Some (AScalar k)) →
  related self rows k = ARelated [].
Proof.
  intros Hno. unfold related, with_key.
  destruct (last _) as [o|] eqn:E; [|done].
  apply last_Some_elem_of in E.
  apply list_elem_of_filter in E as [Hk Ho]. by destruct (Hno o Ho).
Qed.

Section Batch.

Variable engine : Query -> list OrmObject.

Lemma get_query_rows (self : ModelLoader) (q : Query) :
  _get_query self = Ok q → rows_of engine q = engine q.
Proof.
  unfold _get_query.
  destruct (if truthy _ then _ else _) as [q1|]; [|done]. simpl.
  destruct (if truthy _ && _ then _ else _) as [q2|]; [|done]. simpl.
  by intros [= <-].
Qed.

(** What one call of the batch function does once the query is composed:
    it logs one retrieval and answers every key by position. *)
Lemma batch_load_composed (l : nat) (self : ModelLoader) (keys : list Key)
    (s : State) (q : Query) (col : ClassAttr) :
  _get_query self = Ok q →
  model_getattr (parent_model self) (parent_model_pk_field self) = Ok col →
  (∀ o, o ∈ engine q → is_Some (attrs o !! model_relation_field self)) →
  batch_load engine l self keys s
  = (set_executed s (executed s ++ [(l, filter_in q col keys)]),
     Ok (map (related self (engine q)) keys)).
Proof.
  intros Hq Hcol Hrel.
  unfold batch_load, mbind, lift, iterate, mret.
  rewrite Hq, Hcol. cbn [rows_of]. rewrite (get_query_rows _ _ Hq).
  pose proof (model_getattr_name _ _ _ Hcol) as Hname.
  destruct (build_objects_spec self
              (filter (fun o => in_ col keys o = true) (engine q)) ∅)
    as (objects & -> & Hlook).
  { intros o Ho. apply list_elem_of_filter in Ho as [Hin Ho].
    split; [|by apply Hrel]. rewrite <- Hname. by eapply in_has_key. }
  f_equal. f_equal. apply map_ext_in. intros k Hk.
  apply list_elem_of_In in Hk.
  apply objects_get_related. rewrite Hlook.
  rewrite with_key_in_ by done. by rewrite lookup_empty.
Qed.

(** Whatever happens, one call of the batch function runs at most one
    retrieval, and touches nothing but the log. *)
Lemma batch_load_log (l : nat) (self : ModelLoader) (keys : list Key)
    (s : State) :
  ∃ log, (batch_load engine l self keys s).1
         = set_executed s (executed s ++ log)
         ∧ (log = [] ∨ ∃ q col, _get_query self = Ok q
                                ∧ log = [(l, filter_in q col keys)]).
Proof.
  unfold batch_load, mbind, lift, iterate, mret.
  destruct (_get_query self) as [q|e].
  2:{ exists []. split; [|by left]. rewrite app_nil_r. by destruct s. }
  destruct (model_getattr _ _) as [col|e].
  2:{ exists []. split; [|by left]. rewrite app_nil_r. by destruct s. }
  exists [(l, filter_in q col keys)]. split; [|right; eauto].
  by destruct (build_objects _ _ _).
Qed.

(** The answers of the batch function depend on the key at a position
    only. *)
Lemma batch_load_values (l : nat) (self : ModelLoader) (keys : list Key)
    (s s' : State) (values : list AttrValue) :
  batch_load engine l self keys s = (s', Ok values) →
  ∃ objects, values = map (objects_get objects) keys.
Proof.
  unfold batch_load, mbind, lift, iterate, mret.
  destruct (_get_query self) as [q|e]; [|done].
  destruct (model_getattr _ _) as [col|e]; [|done].
  destruct (build_objects _ _ _) as [objects|e]; [|done].
  intros [= _ <-]. by exists objects.
Qed.

End Batch.

(** ** The store: what each operation changes *)

Lemma quiet_refl (s : State) : quiet s s.
Proof. by split. Qed.

Lemma quiet_trans (s1 s2 s3 : State) : quiet s1 s2 → quiet s2 s3 → quiet s1 s3.
Proof.
  intros [H1 H2 H3] [H4 H5 H6]. split; congruence.
Qed.

Lemma quiet_slot (s s' : State) : quiet s s' → slot s' = slot s.
Proof. intros [H _ _]. unfold slot. by rewrite H. Qed.

Lemma quiet_registry (s s' : State) : quiet s s' → registry s' = registry s.
Proof.
  intros H. unfold registry. rewrite (quiet_slot _ _ H).
  by rewrite (quiet_dicts _ _ H).
Qed.

Lemma quiet_length (s s' : State) :
  quiet s s' → length (loaders s') = length (loaders s).
Proof.
  intros [_ _ H]. apply (f_equal length) in H.
  by rewrite !length_fmap in H.
Qed.

Lemma quiet_config (s s' : State) (l : nat) (ld : ModelLoader) :
  quiet s s' → loaders s !! l = Some ld →
  ∃ ld', loaders s' !! l = Some ld' ∧ config ld' = config ld.
Proof.
  intros [_ _ H] Hl.
  assert (Hc : (config <$> loaders s') !! l = Some (config ld)).
  { rewrite H, list_lookup_fmap, Hl. reflexivity. }
  rewrite list_lookup_fmap in Hc.
  destruct (loaders s' !! l) as [ld'|]; [|done].
  exists ld'. split; [done|].
  change (Some (config ld') = Some (config ld)) in Hc. congruence.
Qed.

Lemma quiet_wf (s s' : State) : quiet s s' → wf s → wf s'.
Proof.
  intros Hq [Hslot Hbound Hinj].
  split.
  - unfold slot_absent. rewrite (quiet_slot _ _ Hq).
    rewrite (quiet_context _ _ Hq), (quiet_dicts _ _ Hq). done.
  - rewrite (quiet_registry _ _ Hq), (quiet_length _ _ Hq). done.
  - rewrite (quiet_registry _ _ Hq). done.
Qed.

Lemma quiet_extends (s s' : State) : quiet s s' → extends s s'.
Proof.
  intros Hq. split.
  - by rewrite (quiet_context _ _ Hq).
  - by rewrite (quiet_slot _ _ Hq).
  - by rewrite (quiet_dicts _ _ Hq).
  - by rewrite (quiet_registry _ _ Hq).
  - by rewrite (quiet_loaders _ _ Hq).
Qed.

Lemma extends_refl (s : State) : extends s s.
Proof. by split. Qed.

Lemma extends_trans (s1 s2 s3 : State) :
  extends s1 s2 → extends s2 s3 → extends s1 s3.
Proof.
  intros [A1 A2 A3 A4 A5] [B1 B2 B3 B4 B5]. split.
  - congruence.
  - auto.
  - intros [ref Href]. rewrite B3, A3; eauto.
  - by etrans.
  - by etrans.
Qed.

Lemma config_set_pending (ld : ModelLoader) (queue : list Key)
    (cache : gset Key) :
  config (set_pending ld queue cache) = config ld.
Proof. done. Qed.

Lemma quiet_set_pending (s : State) (l : nat) (ld : ModelLoader)
    (queue : list Key) (cache : gset Key) :
  loaders s !! l = Some ld →
  quiet s (set_loaders s (<[l := set_pending ld queue cache]> (loaders s))).
Proof.
  intros Hl. split; [done..|]. simpl.
  rewrite list_fmap_insert, config_set_pending.
  apply list_insert_id. by rewrite list_lookup_fmap, Hl.
Qed.

Lemma quiet_set_executed (s : State) (log : list (nat * Query)) :
  quiet s (set_executed s log).
Proof. by split. Qed.

Lemma load_spec (l : nat) (key : Key) (s s' : State) (r : Result Handle) :
  load l key s = (s', r) →
  quiet s s' ∧ executed s' = executed s
  ∧ (∀ j, j ≠ l → loaders s' !! j = loaders s !! j)
  ∧ match loaders s !! l with
    | None => r = Raise TypeError ∧ s' = s
    | Some ld =>
        r = Ok (l, key)
        ∧ ∃ ld', loaders s' !! l = Some ld'
                 ∧ key ∈ _promise_cache ld'
                 ∧ _promise_cache ld ⊆ _promise_cache ld'
                 ∧ ((∀ k, k ∈ _promise_cache ld ↔ k ∈ _queue ld) →
                    ∀ k, k ∈ _promise_cache ld' ↔ k ∈ _queue ld')
    end.
Proof.
  unfold load. destruct (loaders s !! l) as [ld|] eqn:Hl.
  2:{ intros [= <- <-]. split; [apply quiet_refl|]. done. }
  case_decide as Hin.
  - intros [= <- <-]. split; [apply quiet_refl|].
    split; [done|]. split; [done|]. split; [done|].
    exists ld. by rewrite Hl.
  - intros [= <- <-]. split; [by apply quiet_set_pending|].
    split; [done|]. split.
    { intros j Hj. simpl. by rewrite list_lookup_insert_ne. }
    split; [done|].
    eexists. split.
    { simpl. apply list_lookup_insert_eq. by eapply lookup_lt_Some. }
    simpl. split; [set_solver|]. split; [set_solver|].
    intros Hc k. rewrite elem_of_union, elem_of_singleton, elem_of_app,
      list_elem_of_singleton, Hc. tauto.
Qed.

Lemma take_queue_spec (l : nat) (s s' : State) (r : Result (list Key)) :
  take_queue l s = (s', r) →
  quiet s s' ∧ executed s' = executed s
  ∧ (∀ j, j ≠ l → loaders s' !! j = loaders s !! j)
  ∧ match loaders s !! l with
    | None => r = Raise TypeError ∧ s' = s
    | Some ld =>
        r = Ok (_queue ld)
        ∧ loaders s' !! l = Some (set_pending ld [] (_promise_cache ld))
    end.
Proof.
  unfold take_queue. destruct (loaders s !! l) as [ld|] eqn:Hl.
  2:{ intros [= <- <-]. split; [apply quiet_refl|]. done. }
  intros [= <- <-]. split; [by apply quiet_set_pending|].
  split; [done|]. split.
  { intros j Hj. simpl. by rewrite list_lookup_insert_ne. }
  split; [done|]. simpl.
  apply list_lookup_insert_eq. by eapply lookup_lt_Some.
Qed.

Lemma registry_absent (s : State) : slot_absent s → registry s = ∅.
Proof.
  unfold slot_absent, registry.
  destruct (shape (context s)); [by intros ->|by intros [-> | ->]].
Qed.

Lemma registry_at (s : State) (ref : nat) :
  slot s = Some (CtxDict ref) → ref < length (dicts s) →
  dicts s !! ref = Some (registry s).
Proof.
  intros Hs Hlt. unfold registry. rewrite Hs.
  destruct (lookup_lt_is_Some_2 _ _ Hlt) as [d ->]. done.
Qed.

Lemma get_data_loaders_spec (s : State) :
  slot_absent s ∨ (∃ ref, slot s = Some (CtxDict ref) ∧ ref < length (dicts s)) →
  ∃ ref s1,
    get_data_loaders s = (s1, Ok (CtxDict ref))
    ∧ slot s1 = Some (CtxDict ref)
    ∧ ref < length (dicts s1)
    ∧ registry s1 = registry s
    ∧ loaders s1 = loaders s
    ∧ executed s1 = executed s
    ∧ shape (context s1) = shape (context s)
    ∧ (slot_absent s → ref = length (dicts s) ∧ dicts s1 = dicts s ++ [∅])
    ∧ (∀ r0, slot s = Some (CtxDict r0) → s1 = s ∧ r0 = ref).
Proof.
  intros [Habs|(ref & Href & Hlt)].
  - exists (length (dicts s)), (new_data_loaders s).1.
    assert (Hget : get_data_loaders s = new_data_loaders s).
    { unfold get_data_loaders. unfold slot_absent, slot in Habs.
      destruct (shape (context s)); [by rewrite Habs|].
      by destruct Habs as [-> | ->]. }
    rewrite Hget. unfold new_data_loaders. simpl.
    split; [done|]. split.
    { unfold slot. simpl. apply lookup_insert_eq. }
    split; [rewrite length_app; simpl; lia|]. split.
    { rewrite (registry_absent _ Habs). unfold registry, slot. simpl.
      rewrite lookup_insert_eq.
      rewrite lookup_app_r, Nat.sub_diag by done. done. }
    repeat (split; [done|]). intros r0 Hr0.
    unfold slot_absent in Habs. rewrite Hr0 in Habs.
    destruct (shape (context s)); [done|]. by destruct Habs.
  - exists ref, s.
    assert (Hget : get_data_loaders s = (s, Ok (CtxDict ref))).
    { unfold get_data_loaders. unfold slot in Href.
      destruct (shape (context s)); by rewrite Href. }
    rewrite Hget. repeat (split; [done|]). split.
    + intros Habs. unfold slot_absent in Habs. rewrite Href in Habs.
      destruct (shape (context s)); [done|]. by destruct Habs.
    + intros r0 Hr0. rewrite Href in Hr0. by injection Hr0 as ->.
Qed.

Lemma batch_load_composed_log (engine : Query -> list OrmObject) (l : nat)
    (self : ModelLoader) (keys : list Key) (s : State) (q : Query)
    (col : ClassAttr) :
  _get_query self = Ok q →
  model_getattr (parent_model self) (parent_model_pk_field self) = Ok col →
  (batch_load engine l self keys s).1
  = set_executed s (executed s ++ [(l, filter_in q col keys)]).
Proof.
  intros Hq Hcol. unfold batch_load, mbind, lift, iterate, mret.
  rewrite Hq, Hcol. by destruct (build_objects _ _ _).
Qed.

Lemma retrievals_of_none (l : nat) (log : list (nat * Query)) :
  (∀ e, e ∈ log → e.1 ≠ l) → retrievals_of l log = [].
Proof.
  induction log as [|e log IH]; intros H; [done|].
  unfold retrievals_of. rewrite filter_cons_False by (apply H; by left).
  apply IH. intros e' He'. apply H. by right.
Qed.

Lemma retrievals_of_all (l : nat) (log : list (nat * Query)) :
  (∀ e, e ∈ log → e.1 = l) → retrievals_of l log = log.
Proof.
  induction log as [|e log IH]; intros H; [done|].
  unfold retrievals_of. rewrite filter_cons_True by (apply H; by left).
  f_equal. apply IH. intros e' He'. apply H. by right.
Qed.

Lemma retrievals_of_app (l : nat) (log1 log2 : list (nat * Query)) :
  retrievals_of l (log1 ++ log2)
  = retrievals_of l log1 ++ retrievals_of l log2.
Proof. apply filter_app. Qed.

Section Store.

Variable to_snake_case : string -> string.
Variable engine : Query -> list OrmObject.


Lemma lookup_cases (root : OrmObject) (m : Model) (info : ResolveInfo)
    (args : gmap string PyVal) (s s' : State) (r : Result nat) :
  slot_absent s ∨ (∃ ref, slot s = Some (CtxDict ref) ∧ ref < length (dicts s)) →
  _get_or_create_data_loader to_snake_case root m info args s = (s', r) →
  lookup_outcome to_snake_case root m info args s s' r
  ∧ executed s' = executed s
  ∧ shape (context s') = shape (context s)
  ∧ ∃ ref, slot s' = Some (CtxDict ref) ∧ ref < length (dicts s')
           ∧ (slot_absent s →
              ref = length (dicts s) ∧ length (dicts s') = S (length (dicts s)))
           ∧ (∀ r0, slot s = Some (CtxDict r0) →
              r0 = ref ∧ length (dicts s') = length (dicts s)).
Proof.
  intros Hslot.
  destruct (get_data_loaders_spec s Hslot)
    as (ref & s1 & Hget & Hs1 & Hlt & Hreg & Hld & Hex & Hsh & Hnew & Hold).
  unfold _get_or_create_data_loader, mbind. rewrite Hget.
  unfold registry_lookup. rewrite (registry_at _ _ Hs1 Hlt).
  rewrite Hreg.
  destruct (registry s !! data_loader_key info) as [l|] eqn:Hk.
  - unfold mret. intros [= <- <-].
    assert (s1 = s) as ->.
    { destruct Hslot as [Habs|(r0 & Hr0 & _)]; [|by destruct (Hold r0 Hr0)].
      by rewrite (registry_absent _ Habs) in Hk. }
    split; [by eapply lookup_found|].
    split; [done|]. split; [done|].
    exists ref. split; [done|]. split; [done|]. split.
    + intros Habs. by rewrite (registry_absent _ Habs) in Hk.
    + intros r0 Hr0. by destruct (Hold r0 Hr0) as [_ ->].
  - unfold lift.
    destruct (ModelLoader_init _ _ _ _ _) as [loader|e] eqn:Hinit.
    + unfold new_loader, registry_store, mret. simpl.
      intros [= <- <-]. simpl. rewrite Hld.
      split.
      { eapply lookup_created; [done..| |done].
        unfold registry, slot. simpl. unfold slot in Hs1. rewrite Hs1.
        rewrite list_lookup_alter_eq, (registry_at _ _ Hs1 Hlt), Hreg.
        done. }
      split; [done|]. split; [done|].
      exists ref. split; [done|]. rewrite length_alter.
      split; [done|]. split.
      * intros Habs. destruct (Hnew Habs) as [-> ->].
        split; [done|]. rewrite length_app. simpl. lia.
      * intros r0 Hr0. destruct (Hold r0 Hr0) as [-> ->]. done.
    + intros [= <- <-].
      split; [by eapply lookup_failed|].
      split; [done|]. split; [done|].
      exists ref. split; [done|]. split; [done|]. split.
      * intros Habs. destruct (Hnew Habs) as [-> ->].
        split; [done|]. rewrite length_app. simpl. lia.
      * intros r0 Hr0. destruct (Hold r0 Hr0) as [-> ->]. done.
Qed.

Lemma lookup_wf (root : OrmObject) (m : Model) (info : ResolveInfo)
    (args : gmap string PyVal) (s s' : State) (r : Result nat) :
  wf s →
  _get_or_create_data_loader to_snake_case root m info args s = (s', r) →
  wf s'.
Proof.
  intros [Hslot Hbound Hinj] Hrun.
  destruct (lookup_cases _ _ _ _ _ _ _ Hslot Hrun)
    as (Hout & _ & _ & ref & Href & Hlt & _).
  split; [right; eauto|..].
  - destruct Hout as [l _ _ ->|e _ _ _ -> ->|ld Hk _ _ -> ->]; [done..|].
    intros k l. rewrite length_app. simpl.
    destruct (decide (data_loader_key info = k)) as [->|Hne].
    + rewrite lookup_insert_eq. intros [= <-]. lia.
    + rewrite lookup_insert_ne by done. intros Hl.
      specialize (Hbound _ _ Hl). lia.
  - destruct Hout as [l _ _ ->|e _ _ _ -> _|ld Hk _ _ -> _]; [done..|].
    intros k k' l.
    destruct (decide (data_loader_key info = k)) as [<-|Hne];
      destruct (decide (data_loader_key info = k')) as [<-|Hne'];
      rewrite ?lookup_insert_eq, ?lookup_insert_ne by done; [done|..].
    + intros [= <-] Hl. specialize (Hbound _ _ Hl). lia.
    + intros Hl [= <-]. specialize (Hbound _ _ Hl). lia.
    + apply Hinj.
Qed.

Lemma lookup_extends (root : OrmObject) (m : Model) (info : ResolveInfo)
    (args : gmap string PyVal) (s s' : State) (r : Result nat) :
  wf s →
  _get_or_create_data_loader to_snake_case root m info args s = (s', r) →
  extends s s'.
Proof.
  intros [Hslot Hbound Hinj] Hrun.
  destruct (lookup_cases _ _ _ _ _ _ _ Hslot Hrun)
    as (Hout & _ & Hsh & ref & Href & Hlt & _ & Hold).
  split; [done|..].
  - intros r0 Hr0. by destruct (Hold r0 Hr0) as [-> _].
  - intros [r0 Hr0]. by destruct (Hold r0 Hr0).
  - destruct Hout as [l _ _ ->|e _ _ _ -> _|ld Hk _ _ -> _]; [done..|].
    by apply insert_subseteq.
  - destruct Hout as [l _ _ ->|e _ _ _ _ ->|ld Hk _ _ _ ->]; [done..|].
    rewrite fmap_app. by apply prefix_app_r.
Qed.

Lemma lookup_registered (root : OrmObject) (m : Model) (info : ResolveInfo)
    (args : gmap string PyVal) (s s' : State) (l : nat) :
  wf s →
  _get_or_create_data_loader to_snake_case root m info args s = (s', Ok l) →
  registry s' !! data_loader_key info = Some l.
Proof.
  intros [Hslot Hbound Hinj] Hrun.
  destruct (lookup_cases _ _ _ _ _ _ _ Hslot Hrun) as (Hout & _).
  destruct Hout as [l' Hk [= ->] ->|e _ _ ? _ _|ld Hk _ [= ->] -> _];
    [done..|].
  apply lookup_insert_eq.
Qed.


(** A resolver is a lookup followed by a submission to the loader found. *)
Lemma resolver_cases (m : Model) (root : OrmObject) (info : ResolveInfo)
    (kwargs : gmap string PyVal) (s s' : State) (r : Result Handle) :
  wf s →
  connection_resolver to_snake_case m root info kwargs s = (s', r) →
  ∃ s1 rl,
    _get_or_create_data_loader to_snake_case root m info kwargs s = (s1, rl)
    ∧ quiet s1 s' ∧ executed s' = executed s1
    ∧ match rl with
      | Raise e => r = Raise e ∧ s' = s1
      | Ok l =>
          (∀ j, j ≠ l → loaders s' !! j = loaders s1 !! j)
          ∧ ∃ ld ld',
              loaders s1 !! l = Some ld ∧ loaders s' !! l = Some ld'
              ∧ _promise_cache ld ⊆ _promise_cache ld'
              ∧ ((∀ k, k ∈ _promise_cache ld ↔ k ∈ _queue ld) →
                 ∀ k, k ∈ _promise_cache ld' ↔ k ∈ _queue ld')
              ∧ ∀ l' key, r = Ok (l', key) →
                          l' = l ∧ key ∈ _promise_cache ld'
      end.
Proof.
  intros Hwf. unfold connection_resolver, mbind.
  destruct (_get_or_create_data_loader _ _ _ _ _ s) as [s1 rl] eqn:Hrun.
  pose proof (lookup_wf _ _ _ _ _ _ _ Hwf Hrun) as Hwf1.
  intros Hres. exists s1, rl. split; [done|].
  destruct rl as [l|e].
  2:{ injection Hres as <- <-. split; [apply quiet_refl|]. done. }
  pose proof (lookup_registered _ _ _ _ _ _ _ Hwf Hrun) as Hreg.
  pose proof (wf_bound _ Hwf1 _ _ Hreg) as Hlt.
  destruct (lookup_lt_is_Some_2 _ _ Hlt) as [ld Hld].
  unfold deref in Hres. rewrite Hld in Hres. unfold lift in Hres.
  destruct (parent_model_object_to_key ld root) as [[key|rows]|e].
  - destruct (load_spec _ _ _ _ _ Hres) as (Hq & Hex & Hother & Hl).
    rewrite Hld in Hl. destruct Hl as (-> & ld' & Hld' & Hin & Hsub & Hiff).
    split; [done|]. split; [done|]. split; [done|].
    exists ld, ld'. split; [done|]. split; [done|]. split; [done|].
    split; [done|]. by intros l' key' [= <- <-].
  - injection Hres as <- <-. split; [apply quiet_refl|].
    split; [done|]. split; [done|].
    exists ld, ld. split; [done|]. split; [done|]. split; [done|].
    split; [done|]. done.
  - injection Hres as <- <-. split; [apply quiet_refl|].
    split; [done|]. split; [done|].
    exists ld, ld. split; [done|]. split; [done|]. split; [done|].
    split; [done|]. done.
Qed.

Lemma resolver_wf (m : Model) (root : OrmObject) (info : ResolveInfo)
    (kwargs : gmap string PyVal) (s s' : State) (r : Result Handle) :
  wf s →
  connection_resolver to_snake_case m root info kwargs s = (s', r) →
  wf s' ∧ extends s s'.
Proof.
  intros Hwf Hres.
  destruct (resolver_cases _ _ _ _ _ _ _ Hwf Hres)
    as (s1 & rl & Hrun & Hq & _).
  split.
  - eapply quiet_wf; [done|]. by eapply lookup_wf.
  - eapply extends_trans; [by eapply lookup_extends|by apply quiet_extends].
Qed.


Lemma dispatch_queue_spec (l : nat) (s s' : State)
    (r : Result (list (Key * AttrValue))) :
  dispatch_queue engine l s = (s', r) →
  quiet s s'
  ∧ (∀ j, j ≠ l → loaders s' !! j = loaders s !! j)
  ∧ ∃ log, executed s' = executed s ++ log ∧ fired l (loaders s !! l) log.
Proof.
  unfold dispatch_queue, mbind.
  destruct (take_queue l s) as [s1 rk] eqn:Htake.
  destruct (take_queue_spec _ _ _ _ Htake) as (Hq & Hex & Hother & Hl).
  destruct (loaders s !! l) as [ld|] eqn:Hld.
  2:{ destruct Hl as [-> ->]. intros [= <- <-].
      split; [apply quiet_refl|]. split; [done|].
      exists []. rewrite app_nil_r. split; [done|].
      split; simpl; [lia| |done|done|done]. by intros e He%elem_of_nil. }
  destruct Hl as [-> Hl].
  destruct (_queue ld) as [|k keys] eqn:Hqueue.
  { unfold mret. intros [= <- <-]. split; [done|]. split; [done|].
    exists []. rewrite app_nil_r. split; [done|].
    split; simpl; [lia| |done|done|].
    - by intros e He%elem_of_nil.
    - intros ld0 q col [= <-]. by rewrite Hqueue. }
  unfold batch_load_fn, mbind, deref. rewrite Hl.
  destruct (batch_load engine l _ (k :: keys) s1) as [s2 rv] eqn:Hbatch.
  intros Hres.
  assert (s' = s2) as ->.
  { destruct rv; unfold mret in Hres; by injection Hres. }
  destruct (batch_load_log engine l
              (set_pending ld [] (_promise_cache ld)) (k :: keys) s1)
    as (log & Hs2 & Hlog).
  rewrite Hbatch in Hs2. simpl in Hs2. subst s2.
  split.
  { eapply quiet_trans; [done|]. apply quiet_set_executed. }
  split; [done|].
  exists log. simpl. rewrite Hex. split; [done|].
  split.
  - destruct Hlog as [->|(q & col & _ & ->)]; simpl; lia.
  - destruct Hlog as [->|(q & col & _ & ->)].
    + by intros e He%elem_of_nil.
    + intros e He%list_elem_of_singleton. subst e. by split.
  - intros Hidle. specialize (Hidle ld eq_refl). by rewrite Hqueue in Hidle.
  - intros ld0 e [= <-] Hraise.
    destruct Hlog as [->|(q & col & Hq0 & _)]; [done|].
    change (_get_query ld = Ok q) in Hq0. congruence.
  - intros ld0 q col [= <-] _ Hq0 Hcol.
    rewrite Hqueue.
    pose proof (batch_load_composed_log engine l
                  (set_pending ld [] (_promise_cache ld)) (k :: keys) s1
                  q col Hq0 Hcol) as Hexact.
    rewrite Hbatch in Hexact. simpl in Hexact.
    apply (f_equal executed) in Hexact. simpl in Hexact.
    by apply app_inv_head in Hexact.
Qed.

Lemma dispatch_all_spec (refs : list nat) (s s' : State)
    (outs : list (nat * Result (list (Key * AttrValue)))) :
  NoDup refs →
  dispatch_all engine refs s = (s', outs) →
  quiet s s'
  ∧ ∃ log,
      executed s' = executed s ++ log
      ∧ (∀ e, e ∈ log → e.1 ∈ refs ∧ (e.1 < length (loaders s))%nat)
      ∧ ∀ l, l ∈ refs → fired l (loaders s !! l) (retrievals_of l log).
Proof.
  revert s s' outs. induction refs as [|l0 refs IH]; intros s s' outs Hnd.
  - intros [= <- <-]. split; [apply quiet_refl|].
    exists []. rewrite app_nil_r. split; [done|]. split.
    + by intros e He%elem_of_nil.
    + by intros l Hl%elem_of_nil.
  - apply NoDup_cons in Hnd as [Hl0 Hnd]. simpl.
    destruct (dispatch_queue engine l0 s) as [sa r] eqn:Hone.
    destruct (dispatch_all engine refs sa) as [sb rs] eqn:Hrest.
    intros [= <- <-].
    destruct (dispatch_queue_spec _ _ _ _ Hone)
      as (Hq0 & Hother & log0 & Hex0 & Hfired0).
    destruct (IH _ _ _ Hnd Hrest) as (Hq1 & log1 & Hex1 & Htags1 & Hfired1).
    split; [by eapply quiet_trans|].
    exists (log0 ++ log1). split; [by rewrite Hex1, Hex0, app_assoc|].
    assert (Htags0 : ∀ e, e ∈ log0 → e.1 = l0 ∧ (l0 < length (loaders s))%nat).
    { intros e He. destruct (fired_tag _ _ _ Hfired0 e He) as [-> Hsome].
      split; [done|]. by apply lookup_lt_is_Some. }
    split.
    + intros e [He|He]%elem_of_app.
      * destruct (Htags0 e He) as [-> ?]. split; [by left|done].
      * destruct (Htags1 e He) as [? ?]. split; [by right|].
        by rewrite <- (quiet_length _ _ Hq0).
    + intros l Hl. rewrite retrievals_of_app.
      apply elem_of_cons in Hl as [->|Hl].
      * rewrite (retrievals_of_none l0 log1).
        2:{ intros e He Heq. destruct (Htags1 e He) as [Hin _].
            by rewrite Heq in Hin. }
        rewrite app_nil_r, retrievals_of_all; [done|].
        intros e He. by destruct (Htags0 e He).
      * assert (l ≠ l0) as Hne by (by intros ->).
        rewrite (retrievals_of_none l log0).
        2:{ intros e He Heq. destruct (Htags0 e He) as [Heq0 _]. congruence. }
        simpl. rewrite <- (Hother l Hne). by apply Hfired1.
Qed.

Lemma end_of_wave_spec (s s' : State)
    (outs : list (nat * Result (list (Key * AttrValue)))) :
  end_of_wave engine s = (s', outs) →
  quiet s s'
  ∧ ∃ log,
      executed s' = executed s ++ log
      ∧ (∀ e, e ∈ log → (e.1 < length (loaders s))%nat)
      ∧ ∀ l ld, loaders s !! l = Some ld →
                fired l (Some ld) (retrievals_of l log).
Proof.
  unfold end_of_wave. intros Hrun.
  destruct (dispatch_all_spec _ _ _ _ (NoDup_seq 0 _) Hrun)
    as (Hq & log & Hex & Htags & Hfired).
  split; [done|]. exists log. split; [done|]. split.
  - intros e He. by destruct (Htags e He).
  - intros l ld Hld. rewrite <- Hld. apply Hfired.
    apply elem_of_seq. apply lookup_lt_Some in Hld. lia.
Qed.

(** ** Invariants of a request *)





Lemma extends_event (e : Event) (s : State) :
  wf s → extends s (run_event to_snake_case engine e s).
Proof.
  intros Hs. destruct e as [i|i|]; simpl.
  - destruct (_get_or_create_data_loader _ _ _ _ _ s) as [s' r] eqn:Hrun.
    by eapply lookup_extends.
  - destruct (connection_resolver _ _ _ _ _ s) as [s' r] eqn:Hrun.
    by eapply resolver_wf.
  - destruct (end_of_wave engine s) as [s' outs] eqn:Hrun.
    destruct (end_of_wave_spec _ _ _ Hrun) as (Hq & _).
    by apply quiet_extends.
Qed.

Lemma wf_event (e : Event) (s : State) :
  wf s → wf (run_event to_snake_case engine e s).
Proof.
  intros Hs. destruct e as [i|i|]; simpl.
  - destruct (_get_or_create_data_loader _ _ _ _ _ s) as [s' r] eqn:Hrun.
    by eapply lookup_wf.
  - destruct (connection_resolver _ _ _ _ _ s) as [s' r] eqn:Hrun.
    by eapply resolver_wf.
  - destruct (end_of_wave engine s) as [s' outs] eqn:Hrun.
    destruct (end_of_wave_spec _ _ _ Hrun) as (Hq & _).
    by eapply quiet_wf.
Qed.

Lemma wf_events (es : list Event) (s : State) :
  wf s →
  wf (run_events to_snake_case engine es s)
  ∧ extends s (run_events to_snake_case engine es s).
Proof.
  revert s. induction es as [|e es IH]; intros s Hs.
  - split; [done|apply extends_refl].
  - simpl. destruct (IH _ (wf_event e s Hs)) as [Hwf Hext].
    split; [done|]. eapply extends_trans; [by apply extends_event|done].
Qed.


Lemma wf_absent (s : State) : slot_absent s → wf s.
Proof.
  intros Habs. split; [by left|..]; rewrite (registry_absent _ Habs).
  - intros k l. by rewrite lookup_empty.
  - intros k k' l. by rewrite lookup_empty.
Qed.


(** ** The resolvers of one wave *)








End Store.

(** ** The claims *)


Lemma get_query_child_irrelevant (self : ModelLoader) (m : Model) :
  is_Ok (_get_query (with_model self m)) = is_Ok (_get_query self).
Proof.
  unfold _get_query. simpl.
  destruct (truthy (dict_get (graphql_args self) (filter_arg self))).
  - destruct (_get_filter_set _ _) as [fs|e]; [|done]. simpl.
    destruct (truthy _ && _); [|done].
    destruct (dict_get (graphql_args self) "sort"); try done.
    by destruct (rmap _ _).
  - simpl. destruct (truthy _ && _); [|done].
    destruct (dict_get (graphql_args self) "sort"); try done.
    by destruct (rmap _ _).
Qed.

Lemma lookup_never_executes (to_snake_case : string -> string)
    (root : OrmObject) (m : Model) (info : ResolveInfo)
    (args : gmap string PyVal) (s : State) :
  executed (_get_or_create_data_loader to_snake_case root m info args s).1
  = executed s.
Proof.
  unfold _get_or_create_data_loader, mbind, get_data_loaders,
    new_data_loaders, registry_lookup, lift, new_loader, registry_store, mret.
  repeat case_match; simplify_eq; done.
Qed.

Lemma dict_get_insert_eq (d : gmap string PyVal) (key : string) (v : PyVal) :
  dict_get (<[key := v]> d) key = v.
Proof. unfold dict_get. by rewrite lookup_insert_eq. Qed.

Lemma dict_get_insert_ne (d : gmap string PyVal) (key key' : string)
    (v : PyVal) :
  key ≠ key' → dict_get (<[key := v]> d) key' = dict_get d key'.
Proof. intros H. unfold dict_get. by rewrite lookup_insert_ne. Qed.

Lemma dict_get_delete_eq (d : gmap string PyVal) (key : string) :
  dict_get (delete key d) key = PNone.
Proof. unfold dict_get. by rewrite lookup_delete_eq. Qed.

Lemma dict_get_delete_ne (d : gmap string PyVal) (key key' : string) :
  key ≠ key' → dict_get (delete key d) key' = dict_get d key'.
Proof. intros H. unfold dict_get. by rewrite lookup_delete_ne. Qed.

(** A falsy filter argument acts like any other falsy filter argument. *)
Lemma get_query_falsy_filter (self : ModelLoader) (a b : gmap string PyVal) :
  truthy (dict_get a (filter_arg self)) = false →
  truthy (dict_get b (filter_arg self)) = false →
  dict_get a "sort" = dict_get b "sort" →
  _get_query (with_args self a) = _get_query (with_args self b).
Proof.
  intros Ha Hb Hs. unfold _get_query. simpl. by rewrite Ha, Hb, Hs.
Qed.

(** A sort argument that is skipped acts like any other that is skipped. *)
Lemma get_query_skipped_sort (self : ModelLoader) (a b : gmap string PyVal) :
  dict_get a (filter_arg self) = dict_get b (filter_arg self) →
  truthy (dict_get a "sort") && isinstance_list (dict_get a "sort") = false →
  truthy (dict_get b "sort") && isinstance_list (dict_get b "sort") = false →
  _get_query (with_args self a) = _get_query (with_args self b).
Proof.
  intros Hf Ha Hb. unfold _get_query. simpl. by rewrite Hf, Ha, Hb.
Qed.

(** A run whose result is known. *)
Lemma run_result {A : Type} (p : State * Result A) (r : Result A) :
  p.2 = r → p = (p.1, r).
Proof. intros <-. by destruct p. Qed.

Lemma data_loader_key_index (info info' : ResolveInfo)
    (before after : list PathSegment) (i j : nat) :
  path info = before ++ PathIndex i :: after →
  path info' = before ++ PathIndex j :: after →
  data_loader_key info = data_loader_key info'.
Proof.
  unfold data_loader_key. intros -> ->. by rewrite !omap_app.
Qed.

Section Claims.

Variable to_snake_case : string -> string.
Variable engine : Query -> list OrmObject.

(** The loader lookup and the loader constructor on the arguments of an
    invocation, and the tree-location key of an invocation. *)
Local Abbreviation lookup i :=
  (_get_or_create_data_loader to_snake_case (inv_root i) (inv_model i)
     (inv_info i) (inv_kwargs i)).
Local Abbreviation construct i :=
  (ModelLoader_init to_snake_case (type_of (inv_root i)) (inv_model i)
     (inv_info i) (inv_kwargs i)).
Local Abbreviation location i := (data_loader_key (inv_info i)).

(** C3. Within one request, a loader lookup and any later loader lookup
    return the same loader exactly when the string segments of their
    resolution paths are equal, whatever happens to the store in between;
    in particular two paths that differ in a list index only have the same
    tree-location key. *)
Theorem loader_shared_iff_same_location (s s1 s3 : State)
    (i1 i2 : Invocation) (es : list Event) (l1 l2 : nat) :
  wf s →
  lookup i1 s = (s1, Ok l1) →
  lookup i2 (run_events to_snake_case engine es s1) = (s3, Ok l2) →
  (l1 = l2 ↔ location i1 = location i2)
  ∧ ∀ before after i j,
      path (inv_info i1) = before ++ PathIndex i :: after →
      path (inv_info i2) = before ++ PathIndex j :: after →
      l1 = l2.
Proof.
  intros Hwf Hrun1 Hrun2.
  pose proof (lookup_wf _ _ _ _ _ _ _ _ Hwf Hrun1) as Hwf1.
  pose proof (lookup_registered _ _ _ _ _ _ _ _ Hwf Hrun1) as Hreg1.
  destruct (wf_events to_snake_case engine es s1 Hwf1) as [Hwf2 Hext].
  set (s2 := run_events to_snake_case engine es s1) in *.
  assert (Hreg2 : registry s2 !! location i1 = Some l1).
  { eapply lookup_weaken; [done|]. apply (ext_registry _ _ Hext). }
  destruct (lookup_cases _ _ _ _ _ _ _ _ (wf_slot _ Hwf2) Hrun2)
    as (Hout & _).
  assert (Hiff : l1 = l2 ↔ location i1 = location i2).
  { destruct Hout as [l Hk [= ->] _|e _ _ ? _ _|ld Hk _ [= ->] _ _]; [|done|].
    - split.
      + intros ->. by eapply (wf_inj _ Hwf2).
      + intros Heq. rewrite Heq in Hreg2. congruence.
    - split.
      + intros ->. pose proof (wf_bound _ Hwf2 _ _ Hreg2). lia.
      + intros Heq. rewrite Heq in Hreg2. congruence. }
  split; [done|].
  intros before after i j Hp1 Hp2. apply Hiff.
  by eapply data_loader_key_index.
Qed.

(** C7. In a context of either shape that has no extension slot yet, the
    first loader lookup creates the slot; every later lookup of the request
    finds that same slot and creates no other; and a lookup raises only the
    exception of the loader constructor, never one of the registry. *)
Theorem slot_created_once_and_reused (s : State) (i : Invocation) :
  slot_absent s →
  slot (lookup i s).1 = Some (CtxDict (length (dicts s)))
  ∧ length (dicts (lookup i s).1) = S (length (dicts s))
  ∧ match (lookup i s).2 with
    | Ok _ => True
    | Raise e => construct i = Raise e
    end
  ∧ ∀ (es : list Event) (i' : Invocation),
      slot (lookup i' (run_events to_snake_case engine es (lookup i s).1)).1
      = Some (CtxDict (length (dicts s)))
      ∧ length (dicts (lookup i'
                         (run_events to_snake_case engine es (lookup i s).1)).1)
        = S (length (dicts s))
      ∧ match (lookup i'
                 (run_events to_snake_case engine es (lookup i s).1)).2 with
        | Ok _ => True
        | Raise e => construct i' = Raise e
        end.
Proof.
  intros Habs.
  pose proof (wf_absent _ Habs) as Hwf.
  destruct (lookup i s) as [s1 r] eqn:Hrun. simpl.
  pose proof (lookup_wf _ _ _ _ _ _ _ _ Hwf Hrun) as Hwf1.
  destruct (lookup_cases _ _ _ _ _ _ _ _ (wf_slot _ Hwf) Hrun)
    as (Hout & _ & _ & ref & Href & _ & Hnew & _).
  destruct (Hnew Habs) as [-> Hlen].
  split; [done|]. split; [done|]. split.
  { destruct Hout as [l _ -> _|e _ Hinit -> _ _|ld _ _ -> _ _]; done. }
  intros es i'.
  destruct (wf_events to_snake_case engine es s1 Hwf1) as [Hwf2 Hext].
  set (s2 := run_events to_snake_case engine es s1) in *.
  destruct (lookup i' s2) as [s3 r'] eqn:Hrun'. simpl.
  destruct (lookup_cases _ _ _ _ _ _ _ _ (wf_slot _ Hwf2) Hrun')
    as (Hout' & _ & _ & ref' & Href' & _ & _ & Hold).
  destruct (Hold _ (ext_slot _ _ Hext _ Href)) as [<- Hlen'].
  split; [done|]. split.
  { rewrite Hlen', (ext_dicts _ _ Hext); [done|eauto]. }
  destruct Hout' as [l _ -> _|e _ Hinit -> _ _|ld _ _ -> _ _]; done.
Qed.



(** C2. Once the query composes (and the engine loads the relation of the
    objects it returns, as [contains_eager] asks), the batch function
    returns, for any list of keys, a list of the same length whose i-th
    element is the collection of child rows that belongs to the i-th key
    in the result of the composed query; a key without a parent row in
    that result gets the empty sequence, not an error. *)
Theorem batch_results_follow_keys (l : nat) (self : ModelLoader)
    (keys : list Key) (s : State) (q : Query) :
  loaders s !! l = Some self →
  _get_query self = Ok q →
  is_Ok (model_getattr (parent_model self) (parent_model_pk_field self))
  = true →
  (∀ o, o ∈ engine q → is_Some (attrs o !! model_relation_field self)) →
  ∃ values,
    (batch_load_fn engine l keys s).2 = Ok values
    ∧ length values = length keys
    ∧ (∀ n k, keys !! n = Some k →
              values !! n = Some (related self (engine q) k))
    ∧ (∀ n k, keys !! n = Some k →
              (∀ o, o ∈ engine q →
                    attrs o !! parent_model_pk_field self ≠ Some (AScalar k)) →
              values !! n = Some (ARelated [])).
Proof.
  intros Hl Hq Hpk Hrel.
  destruct (model_getattr _ _) as [col|e] eqn:Hcol; [|done].
  exists (map (related self (engine q)) keys).
  unfold batch_load_fn, mbind, deref. rewrite Hl.
  rewrite (batch_load_composed engine l self keys s q col Hq Hcol Hrel).
  split; [done|]. split; [apply length_map|].
  assert (Hnth : ∀ n k, keys !! n = Some k →
                        map (related self (engine q)) keys !! n
                        = Some (related self (engine q) k)).
  { intros n k Hk. change (map ?f ?x) with (f <$> x).
    by rewrite list_lookup_fmap, Hk. }
  split; [done|].
  intros n k Hk Hno. rewrite (Hnth n k Hk). f_equal.
  by apply related_no_match.
Qed.

(** C4. Whenever the batch function returns, two positions of the key list
    that hold the same key hold the same result. *)
Theorem batch_equal_keys_equal_results (l : nat) (keys : list Key)
    (s s' : State) (values : list AttrValue) (n n' : nat) (k : Key) :
  batch_load_fn engine l keys s = (s', Ok values) →
  keys !! n = Some k →
  keys !! n' = Some k →
  ∃ v, values !! n = Some v ∧ values !! n' = Some v.
Proof.
  unfold batch_load_fn, mbind, deref.
  destruct (loaders s !! l) as [self|]; [|done].
  intros Hrun Hn Hn'.
  destruct (batch_load_values _ _ _ _ _ _ _ Hrun) as [objects ->].
  exists (objects_get objects k).
  change (map ?f ?x) with (f <$> x).
  by rewrite !list_lookup_fmap, Hn, Hn'.
Qed.

(** C5, amended. A parent model whose number of primary-key fields is not
    1 makes the constructor raise [ModelNotSupported], and nothing else
    does; the constructor succeeds exactly when the parent model has one
    primary-key field and the snake-case field name is an attribute of the
    parent model class: a column, a relationship or any other attribute of
    the class; a loader lookup, which is where loaders are constructed, runs no
    query. *)
Theorem construction_checks_parent_key (pm m : Model) (info : ResolveInfo)
    (args : gmap string PyVal) :
  (pk_count pm ≠ 1 →
   ModelLoader_init to_snake_case pm m info args
   = Raise (ModelNotSupported (pk_count pm) (model_name pm)))
  ∧ (∀ count name,
       ModelLoader_init to_snake_case pm m info args
       = Raise (ModelNotSupported count name) →
       pk_count pm ≠ 1)
  ∧ (is_Ok (ModelLoader_init to_snake_case pm m info args) = true
     ↔ pk_count pm = 1
       ∧ to_snake_case (field_name info)
         ∈ (columns pm).*1 ++ relationships pm ++ class_attributes pm)
  ∧ ∀ root s,
      executed
        (_get_or_create_data_loader to_snake_case root m info args s).1
      = executed s.
Proof.
  split; [apply init_raises_unsupported|]. split.
  { intros count name Hraise Hone.
    unfold ModelLoader_init in Hraise.
    apply pk_field_name_ok in Hone.
    destruct (_get_model_pk_field_name pm) as [f|e]; [|done].
    simpl in Hraise. unfold model_getattr in Hraise.
    by repeat case_decide. }
  split; [apply init_ok_iff|].
  intros root s. apply lookup_never_executes.
Qed.

(** C6, amended. The primary key of the child model is never looked at:
    with another child model, whatever its primary-key fields, loader
    construction raises the same exception or builds the same loader up to
    the child model, and query composition succeeds for the one exactly
    when it does for the other. *)
Theorem child_key_is_not_checked (pm m m' : Model) (info : ResolveInfo)
    (args : gmap string PyVal) :
  match ModelLoader_init to_snake_case pm m info args,
        ModelLoader_init to_snake_case pm m' info args with
  | Ok self, Ok self' =>
      self' = with_model self m'
      ∧ is_Ok (_get_query self') = is_Ok (_get_query self)
  | Raise e, Raise e' => e = e'
  | _, _ => False
  end.
Proof.
  pose proof (init_independent_of_child to_snake_case pm m m' info args) as H.
  destruct (ModelLoader_init _ pm m _ _) as [self|e],
           (ModelLoader_init _ pm m' _ _) as [self'|e']; try done.
  split; [done|]. subst self'. apply get_query_child_irrelevant.
Qed.

End Claims.

(** C9. Without a filter argument and without a sort argument the composer
    builds the join of the parent to the plain child query; without a
    filter argument only the sort directives are applied, and without a
    sort argument only the filter set. *)
Theorem absent_arguments_skip_stages (self : ModelLoader) :
  (graphql_args self !! filter_arg self = None →
   graphql_args self !! "sort" = None →
   _get_query self = Ok (joined self (get_query (model self))))
  ∧ (∀ cols values,
       graphql_args self !! filter_arg self = None →
       graphql_args self !! "sort" = Some (PList cols) →
       cols ≠ [] →
       rmap (fun col => pyval_getattr col "value") cols = Ok values →
       _get_query self
       = Ok (joined self (order_by (get_query (model self)) values)))
  ∧ (∀ v fs,
       graphql_args self !! "sort" = None →
       graphql_args self !! filter_arg self = Some v →
       truthy v = true →
       _get_filter_set (filter_arg self) (info self) = Ok fs →
       _get_query self
       = Ok (joined self
               (filter_set_filter fs (info self) (get_query (model self)) v))).
Proof.
  split; [|split].
  - intros Hf Hs. apply get_query_no_filter_no_sort.
    + by rewrite (dict_get_absent _ _ Hf).
    + by rewrite (dict_get_absent _ _ Hs).
  - intros cols values Hf Hs Hne Hv.
    apply (get_query_sort_only self cols values); [|by apply dict_get_present|done..].
    by rewrite (dict_get_absent _ _ Hf).
  - intros v fs Hs Hf Ht Hfs.
    apply (get_query_filter_only self v fs); [by apply dict_get_present|done..|].
    by rewrite (dict_get_absent _ _ Hs).
Qed.

(** C10. A filter argument that is present but falsy, and a sort argument
    that is present but is no list or is the empty list, change nothing:
    the composer returns what it returns when the argument is omitted, and
    with both it returns the plain join without an error. *)
Theorem falsy_arguments_as_omitted (self : ModelLoader)
    (args : gmap string PyVal) (v : PyVal) :
  filter_arg self ≠ "sort" →
  (truthy v = false →
   _get_query (with_args self (<[filter_arg self := v]> args))
   = _get_query (with_args self (delete (filter_arg self) args)))
  ∧ (isinstance_list v = false ∨ v = PList [] →
     _get_query (with_args self (<["sort" := v]> args))
     = _get_query (with_args self (delete "sort" args)))
  ∧ (∀ v', truthy v = false →
           isinstance_list v' = false ∨ v' = PList [] →
           _get_query
             (with_args self (<[filter_arg self := v]> (<["sort" := v']> args)))
           = Ok (joined self (get_query (model self)))).
Proof.
  intros Hne. split; [|split].
  - intros Hv. apply get_query_falsy_filter.
    + by rewrite dict_get_insert_eq.
    + by rewrite dict_get_delete_eq.
    + by rewrite dict_get_insert_ne, dict_get_delete_ne.
  - intros Hv. apply sort_skipped in Hv. apply get_query_skipped_sort.
    + by rewrite dict_get_insert_ne, dict_get_delete_ne.
    + by rewrite dict_get_insert_eq.
    + by rewrite dict_get_delete_eq.
  - intros v' Hv Hv'. apply sort_skipped in Hv'.
    apply (get_query_no_filter_no_sort
             (with_args self (<[filter_arg self := v]> (<["sort" := v']> args)))).
    + simpl. by rewrite dict_get_insert_eq.
    + simpl. by rewrite dict_get_insert_ne, dict_get_insert_eq.
Qed.

(** ** The claims on the example data *)

Import Examples.



Lemma batch_scenario_witness :
  loaders one_loader !! 0%nat = Some (posts_loader ∅)
  ∧ _get_query (posts_loader ∅)
    = Ok (joined (posts_loader ∅) (get_query Post))
  ∧ (batch_load_fn db 0 [KInt 1; KInt 2; KInt 3] one_loader).2
    = Ok [ARelated []; ARelated [row 10; row 11]; ARelated []].
Proof.
  assert (H1 : loaders one_loader !! 0%nat = Some (posts_loader ∅))
    by reflexivity.
  assert (H2 : _get_query (posts_loader ∅)
               = Ok (joined (posts_loader ∅) (get_query Post)))
    by (by vm_compute).
  assert (H3 : is_Ok (model_getattr (parent_model (posts_loader ∅))
                        (parent_model_pk_field (posts_loader ∅))) = true)
    by (by vm_compute).
  assert (H4 : ∀ o, o ∈ db (joined (posts_loader ∅) (get_query Post)) →
                    is_Some (attrs o !! model_relation_field (posts_loader ∅))).
  { intros o Ho. apply list_elem_of_singleton in Ho. subst o.
    exists (ARelated [row 10; row 11]). by vm_compute. }
  assert (Hno : ∀ z, z ≠ 2%Z → ∀ o,
                  o ∈ db (joined (posts_loader ∅) (get_query Post)) →
                  attrs o !! parent_model_pk_field (posts_loader ∅)
                  ≠ Some (AScalar (KInt z))).
  { intros z Hz o Ho. apply list_elem_of_singleton in Ho. subst o.
    vm_compute. intros [= Heq]. by apply Hz. }
  split; [exact H1|]. split; [exact H2|].
  destruct (batch_results_follow_keys db 0 (posts_loader ∅)
              [KInt 1; KInt 2; KInt 3] one_loader _ H1 H2 H3 H4)
    as (values & Hv & Hlen & Hnth & Hnone).
  rewrite Hv. f_equal.
  pose proof (Hnone 0%nat (KInt 1) eq_refl (Hno 1%Z ltac:(done))) as Hv1.
  pose proof (Hnth 1%nat (KInt 2) eq_refl) as Hv2.
  pose proof (Hnone 2%nat (KInt 3) eq_refl (Hno 3%Z ltac:(done))) as Hv3.
  destruct values as [|v1 [|v2 [|v3 [|v4 values]]]]; try discriminate Hlen.
  simpl in Hv1, Hv2, Hv3.
  injection Hv1 as ->. injection Hv2 as ->. injection Hv3 as ->.
  by vm_compute.
Defined.

Lemma shared_loader_witness :
  wf (fresh Object)
  ∧ (0%nat = 0%nat
     ↔ data_loader_key (posts_info 0) = data_loader_key (posts_info 1))
  ∧ (0%nat = 1%nat
     ↔ data_loader_key (posts_info 0) = data_loader_key author_posts_info).
Proof.
  assert (Hwf : wf (fresh Object)).
  { apply wf_absent. vm_compute. by left. }
  split; [exact Hwf|]. split.
  - exact (proj1 (loader_shared_iff_same_location snake db
                    (fresh Object) _ _
                    (posts_of 0 (user 1 []) ∅) (posts_of 1 (user 2 []) ∅)
                    [Resolve author_posts; Wave] 0 0
                    Hwf (surjective_pairing _)
                    ltac:(apply run_result; by vm_compute))).
  - exact (proj1 (loader_shared_iff_same_location snake db
                    (fresh Object) _ _
                    (posts_of 0 (user 1 []) ∅) author_posts
                    [Resolve (posts_of 1 (user 2 []) ∅); Wave] 0 1
                    Hwf (surjective_pairing _)
                    ltac:(apply run_result; by vm_compute))).
Defined.

Lemma equal_keys_witness :
  ∃ v, [ARelated [row 10; row 11]; ARelated []; ARelated [row 10; row 11]]
       !! 0%nat = Some v
       ∧ [ARelated [row 10; row 11]; ARelated []; ARelated [row 10; row 11]]
         !! 2%nat = Some v.
Proof.
  apply (batch_equal_keys_equal_results db 0 [KInt 2; KInt 1; KInt 2]
           one_loader
           (batch_load_fn db 0 [KInt 2; KInt 1; KInt 2] one_loader).1
           _ 0 2 (KInt 2)); [|reflexivity..].
  apply run_result. by vm_compute.
Defined.

(** C5 as stated fails: [User] has exactly one primary-key field, and the
    constructor raises for a field that is no attribute of [User]. *)
Lemma construction_fails_with_one_key :
  pk_count User = 1%nat
  ∧ ModelLoader_init snake User Post comments_info ∅ = Raise AttributeError.
Proof. by vm_compute. Qed.

Lemma construction_witness :
  pk_count Pair ≠ 1%nat
  ∧ ModelLoader_init snake Pair Post (posts_info 0) ∅
    = Raise (ModelNotSupported 2 "Pair")
  ∧ is_Ok (ModelLoader_init snake User Post (posts_info 0) ∅) = true
  ∧ is_Ok (ModelLoader_init snake User Post metadata_info ∅) = true.
Proof.
  assert (H : pk_count Pair ≠ 1%nat) by (by vm_compute).
  split; [exact H|]. split; [|split].
  - exact (proj1 (construction_checks_parent_key snake Pair Post
                    (posts_info 0) ∅) H).
  - apply (proj1 (proj2 (proj2 (construction_checks_parent_key snake User
                                  Post (posts_info 0) ∅)))).
    split; [by vm_compute|]. vm_compute.
    apply list_elem_of_In. simpl. tauto.
  - apply (proj1 (proj2 (proj2 (construction_checks_parent_key snake User
                                  Post metadata_info ∅)))).
    split; [by vm_compute|]. vm_compute.
    apply list_elem_of_In. simpl. tauto.
Defined.

(** C6 as stated fails: [Membership] has two primary-key fields, and as a
    child model it passes construction and query composition, and the
    batch runs its retrieval. *)
Lemma composite_child_key_is_accepted :
  pk_count Membership = 2%nat
  ∧ is_Ok (let? self := ModelLoader_init snake User Membership
                          (posts_info 0) ∅ in
           _get_query self) = true
  ∧ length (executed
              (end_of_wave db
                 (connection_resolver snake Membership (user 1 [])
                    (posts_info 0) ∅ (fresh Mapping)).1).1) = 1%nat.
Proof. by vm_compute. Qed.

Lemma slot_witness :
  slot_absent (fresh Object)
  ∧ slot_absent (fresh Mapping)
  ∧ slot (_get_or_create_data_loader snake (user 1 []) Post (posts_info 0) ∅
            (fresh Object)).1 = Some (CtxDict 0)
  ∧ ∀ es i',
      slot (_get_or_create_data_loader snake (inv_root i') (inv_model i')
              (inv_info i') (inv_kwargs i')
              (run_events snake db es
                 (_get_or_create_data_loader snake (user 1 []) Post
                    (posts_info 0) ∅ (fresh Mapping)).1)).1
      = Some (CtxDict 0).
Proof.
  assert (HO : slot_absent (fresh Object)) by (vm_compute; by left).
  assert (HM : slot_absent (fresh Mapping)) by (by vm_compute).
  split; [exact HO|]. split; [exact HM|]. split.
  - exact (proj1 (slot_created_once_and_reused snake db (fresh Object)
                    (posts_of 0 (user 1 []) ∅) HO)).
  - intros es i'.
    exact (proj1 (proj2 (proj2 (proj2
             (slot_created_once_and_reused snake db (fresh Mapping)
                (posts_of 0 (user 1 []) ∅) HM))) es i')).
Defined.


Lemma absent_arguments_witness :
  _get_query (posts_loader ∅)
  = Ok (joined (posts_loader ∅) (get_query Post))
  ∧ _get_query (posts_loader {[ "sort" := PList [name_asc] ]})
    = Ok (joined (posts_loader {[ "sort" := PList [name_asc] ]})
            (order_by (get_query Post) [PStr "name ASC"]))
  ∧ _get_query (posts_loader {[ "filters" := PDict [("id", PInt 10)] ]})
    = Ok (joined (posts_loader {[ "filters" := PDict [("id", PInt 10)] ]})
            (filter_set_filter "PostFilter" (posts_info 0) (get_query Post)
               (PDict [("id", PInt 10)]))).
Proof.
  split; [|split].
  - apply (proj1 (absent_arguments_skip_stages (posts_loader ∅)));
      by vm_compute.
  - apply (proj1 (proj2 (absent_arguments_skip_stages
                           (posts_loader {[ "sort" := PList [name_asc] ]})))
             [name_asc]); by vm_compute.
  - apply (proj2 (proj2 (absent_arguments_skip_stages
                           (posts_loader
                              {[ "filters" := PDict [("id", PInt 10)] ]}))));
      by vm_compute.
Defined.

Lemma falsy_arguments_witness :
  _get_query (with_args (posts_loader ∅) (<[ "filters" := PDict [] ]> ∅))
  = _get_query (with_args (posts_loader ∅) (delete "filters" ∅))
  ∧ _get_query (with_args (posts_loader ∅) (<[ "sort" := PStr "name" ]> ∅))
    = _get_query (with_args (posts_loader ∅) (delete "sort" ∅))
  ∧ _get_query
      (with_args (posts_loader ∅)
         (<[ "filters" := PDict [] ]> (<[ "sort" := PList [] ]> ∅)))
    = Ok (joined (posts_loader ∅) (get_query Post)).
Proof.
  assert (Hne : filter_arg (posts_loader ∅) ≠ "sort") by (by vm_compute).
  split; [|split].
  - apply (proj1 (falsy_arguments_as_omitted (posts_loader ∅) ∅
                    (PDict []) Hne)). reflexivity.
  - apply (proj1 (proj2 (falsy_arguments_as_omitted (posts_loader ∅) ∅
                           (PStr "name") Hne))). by left.
  - apply (proj2 (proj2 (falsy_arguments_as_omitted (posts_loader ∅) ∅
                           (PDict []) Hne)) (PList [])); [reflexivity|by right].
Defined.

(** ** Further properties of the module *)

(** X1. [_get_model_pk_field_name] returns a field name for every model
    with exactly one primary-key column, and for no other model. The name
    it returns is the name of a primary-key column of the model, and no
    other column entry of the model is a primary key. The only error it
    raises is [ModelNotSupported], carrying the number of primary-key
    columns and the model, for a model whose number of primary-key columns
    is not 1: the index [[0]] never fails. *)
Theorem pk_field_name_is_the_only_key (m : Model) :
  (∀ f, _get_model_pk_field_name m = Ok f →
        (∃ c, (f, c) ∈ columns m ∧ primary_key c = true)
        ∧ (∀ name c, (name, c) ∈ columns m → primary_key c = true → name = f)
        ∧ pk_count m = 1%nat)
  ∧ (pk_count m = 1%nat → ∃ f, _get_model_pk_field_name m = Ok f)
  ∧ (∀ e, _get_model_pk_field_name m = Raise e →
          e = ModelNotSupported (pk_count m) (model_name m)
          ∧ pk_count m ≠ 1%nat)
  ∧ _get_model_pk_field_name m ≠ Raise IndexError.
Proof.
  unfold _get_model_pk_field_name, pk_count. rewrite length_fmap.
  destruct (filter _ (columns m)) as [|[g c] [|x xs]] eqn:E; simpl.
  - split; [done|]. split; [done|]. split; [|done].
    intros e [= <-]. by split.
  - split; [|split; [by exists g|split; done]].
    intros f [= <-].
    assert (Hin : ∀ y, y ∈ columns m ∧ primary_key y.2 = true ↔ y = (g, c)).
    { intros y. rewrite <- (list_elem_of_singleton y (g, c)), <- E,
        list_elem_of_filter.
      tauto. }
    split; [|split; [|done]].
    + exists c. by apply (Hin (g, c)).
    + intros name c' Hc Hpk.
      assert ((name, c') = (g, c)) as [= -> _] by (by apply Hin). done.
  - split; [done|]. split; [done|]. split; [|done].
    intros e [= <-]. by split.
Qed.

Lemma rmap_value_error (cols : list PyVal) :
  (∃ col, col ∈ cols ∧ is_Ok (pyval_getattr col "value") = false) →
  rmap (fun col => pyval_getattr col "value") cols = Raise AttributeError.
Proof.
  intros (col & Hin & Hbad).
  induction cols as [|c cols IH]; [by apply elem_of_nil in Hin|].
  simpl. destruct (pyval_getattr c "value") as [v|e] eqn:Hc.
  - apply elem_of_cons in Hin as [->|Hin]; [by rewrite Hc in Hbad|].
    simpl. by rewrite (IH Hin).
  - simpl. unfold pyval_getattr in Hc.
    destruct c; try by injection Hc as <-.
    destruct (_ !! _); [done|]. by injection Hc as <-.
Qed.

(** X2. The composer raises before it returns a query: a truthy filter
    argument whose filter set cannot be found raises the error of the
    lookup, whatever the sort argument is; and once the filter stage has
    passed, a sort list with an element that has no [value] raises
    [AttributeError]. *)
Theorem composer_errors (self : ModelLoader) :
  (∀ e,
     truthy (dict_get (graphql_args self) (filter_arg self)) = true →
     _get_filter_set (filter_arg self) (info self) = Raise e →
     _get_query self = Raise e)
  ∧ (∀ cols,
       (truthy (dict_get (graphql_args self) (filter_arg self)) = false
        ∨ is_Ok (_get_filter_set (filter_arg self) (info self)) = true) →
       dict_get (graphql_args self) "sort" = PList cols →
       (∃ col, col ∈ cols ∧ is_Ok (pyval_getattr col "value") = false) →
       _get_query self = Raise AttributeError).
Proof.
  split.
  - intros e Ht He. unfold _get_query. by rewrite Ht, He.
  - intros cols Hf Hs Hbad. unfold _get_query. rewrite Hs.
    assert (Hne : truthy (PList cols) && isinstance_list (PList cols) = true).
    { destruct Hbad as (col & Hin & _). destruct cols; [|done].
      by apply elem_of_nil in Hin. }
    rewrite Hne, (rmap_value_error cols Hbad).
    destruct (truthy (dict_get _ (filter_arg self))); [|done].
    destruct Hf as [Hf|Hok]; [done|].
    by destruct (_get_filter_set _ _).
Qed.

(** X3. With a truthy filter argument and a sort list, the composer
    filters the child query first and orders the filtered query, and it
    joins the parent to the result: the parent query itself is neither
    filtered nor ordered. *)
Theorem composer_filters_then_sorts (self : ModelLoader) (v : PyVal)
    (fs : FilterSet) (cols values : list PyVal) :
  dict_get (graphql_args self) (filter_arg self) = v →
  truthy v = true →
  _get_filter_set (filter_arg self) (info self) = Ok fs →
  dict_get (graphql_args self) "sort" = PList cols →
  cols ≠ [] →
  rmap (fun col => pyval_getattr col "value") cols = Ok values →
  _get_query self
  = Ok (joined self
          (order_by
             (filter_set_filter fs (info self) (get_query (model self)) v)
             values)).
Proof.
  intros Hv Ht Hfs Hs Hne Hvals. unfold _get_query.
  rewrite Hv, Ht, Hfs, Hs. simpl.
  destruct cols; [done|]. cbn [length Nat.eqb negb]. by rewrite Hvals.
Qed.

(** The composer reads the arguments through [dict.get] only. *)
Lemma get_query_args_agree (self : ModelLoader) (a b : gmap string PyVal) :
  dict_get a (filter_arg self) = dict_get b (filter_arg self) →
  dict_get a "sort" = dict_get b "sort" →
  _get_query (with_args self a) = _get_query (with_args self b).
Proof.
  intros Hf Hs. unfold _get_query. simpl. by rewrite Hf, Hs.
Qed.

Section MoreConstruction.

Variable to_snake_case : string -> string.

Lemma init_fields (pm m : Model) (rinfo : ResolveInfo)
    (args : gmap string PyVal) (self : ModelLoader) :
  ModelLoader_init to_snake_case pm m rinfo args = Ok self →
  filter_arg self = DEFAULT_FILTER_ARG
  ∧ graphql_args self = args
  ∧ info self = rinfo
  ∧ model self = m
  ∧ parent_model self = pm
  ∧ model_relation_field self = to_snake_case (field_name rinfo)
  ∧ _get_model_pk_field_name pm = Ok (parent_model_pk_field self).
Proof.
  unfold ModelLoader_init.
  destruct (_get_model_pk_field_name pm) as [f|e]; [|done]. simpl.
  destruct (model_getattr pm _) as [r|e]; [|done]. simpl.
  by intros [= <-].
Qed.

Lemma init_with_args (pm m : Model) (info : ResolveInfo)
    (a b : gmap string PyVal) (self : ModelLoader) :
  ModelLoader_init to_snake_case pm m info a = Ok self →
  ModelLoader_init to_snake_case pm m info b = Ok (with_args self b).
Proof.
  unfold ModelLoader_init.
  destruct (_get_model_pk_field_name pm) as [f|e]; [|done]. simpl.
  destruct (model_getattr pm _) as [r|e]; [|done]. simpl.
  by intros [= <-].
Qed.

(** X4. The loader reads its request arguments through [filters] and
    [sort] only: a loader constructed with one more argument under any
    other name (a pagination argument, or a filter under a custom name)
    composes the same query. *)
Theorem composer_reads_filters_and_sort (pm m : Model) (info : ResolveInfo)
    (args : gmap string PyVal) (key : string) (v : PyVal)
    (self : ModelLoader) :
  key ≠ "filters" →
  key ≠ "sort" →
  ModelLoader_init to_snake_case pm m info args = Ok self →
  ∃ self',
    ModelLoader_init to_snake_case pm m info (<[key := v]> args) = Ok self'
    ∧ _get_query self' = _get_query self.
Proof.
  intros Hf Hs Hinit.
  exists (with_args self (<[key := v]> args)).
  split; [by eapply init_with_args|].
  destruct (init_fields _ _ _ _ _ Hinit) as (Hfa & Hargs & _).
  assert (self = with_args self args) as Heq.
  { rewrite <- Hargs. by destruct self. }
  rewrite (get_query_args_agree self (<[key := v]> args) args).
  - by rewrite <- Heq.
  - rewrite Hfa. by apply dict_get_insert_ne.
  - by apply dict_get_insert_ne.
Qed.

End MoreConstruction.

(** X9. The tree-location key keeps the names of the path in their order
    and drops every list index, wherever it stands: a path of names is its
    own key, and the key of a concatenation is the concatenation of the
    keys. *)
Theorem data_loader_key_drops_indices (info info1 info2 : ResolveInfo)
    (names : list string) (i : nat) :
  (path info = PathName <$> names → data_loader_key info = names)
  ∧ (path info = path info1 ++ path info2 →
     data_loader_key info = data_loader_key info1 ++ data_loader_key info2)
  ∧ (path info = path info1 ++ PathIndex i :: path info2 →
     data_loader_key info = data_loader_key info1 ++ data_loader_key info2).
Proof.
  unfold data_loader_key. split; [|split].
  - intros ->. induction names as [|n names IH]; [done|].
    simpl. f_equal. apply IH.
  - intros ->. apply omap_app.
  - intros ->. by rewrite omap_app.
Qed.

(** ** Further properties of the batch function *)

Lemma get_query_shape (self : ModelLoader) (q : Query) :
  _get_query self = Ok q →
  ∃ sub, q = joined self sub ∧ source_model sub = model self.
Proof.
  unfold _get_query.
  destruct (if truthy _ then _ else _) as [q1|] eqn:E1; [|done]. simpl.
  assert (H1 : source_model q1 = model self).
  { destruct (truthy _); [|by injection E1 as <-].
    destruct (_get_filter_set _ _); [|done]. by injection E1 as <-. }
  destruct (if truthy _ && _ then _ else _) as [q2|] eqn:E2; [|done]. simpl.
  intros [= <-]. exists q2. split; [done|].
  destruct (truthy _ && _); [|by injection E2 as <-].
  destruct (dict_get _ "sort"); try by injection E2 as <-.
  destruct (rmap _ _); [|done]. by injection E2 as <-.
Qed.

Lemma build_objects_ok_inv (self : ModelLoader) (rows : list OrmObject)
    (acc objects : gmap Key AttrValue) :
  build_objects self rows acc = Ok objects →
  ∀ o, o ∈ rows → is_Some (attrs o !! model_relation_field self).
Proof.
  revert acc. induction rows as [|r rows IH]; intros acc Hb o Ho.
  - by apply elem_of_nil in Ho.
  - simpl in Hb. unfold parent_model_object_to_key, getattr in Hb.
    destruct (attrs r !! model_relation_field self) as [v|] eqn:Hv;
      destruct (attrs r !! parent_model_pk_field self) as [[k|]|];
      simpl in Hb; try done.
    apply elem_of_cons in Ho as [->|Ho]; [by rewrite Hv|].
    by eapply IH.
Qed.

Section MoreBatch.

Variable engine : Query -> list OrmObject.

(** The parent objects that the restricted query yields for [keys]. *)
Local Abbreviation selected col q keys :=
  (filter (fun o => in_ col keys o = true) (engine q)).

Lemma batch_load_ok_intro (l : nat) (self : ModelLoader) (keys : list Key)
    (s : State) (q : Query) (col : ClassAttr) :
  _get_query self = Ok q →
  model_getattr (parent_model self) (parent_model_pk_field self) = Ok col →
  (∀ o, o ∈ selected col q keys →
        is_Some (attrs o !! model_relation_field self)) →
  (batch_load engine l self keys s).2
  = Ok (map (related self (engine q)) keys).
Proof.
  intros Hq Hcol Hrel.
  pose proof (model_getattr_name _ _ _ Hcol) as Hname.
  unfold batch_load, mbind, lift, iterate, mret.
  rewrite Hq, Hcol.
  cbn [rows_of]. rewrite (get_query_rows _ _ _ Hq).
  destruct (build_objects_spec self (selected col q keys) ∅)
    as (objects & -> & Hlook).
  { intros o Ho. split; [|by apply Hrel].
    apply list_elem_of_filter in Ho as [Hin _].
    rewrite <- Hname. by eapply in_has_key. }
  simpl. f_equal. apply map_ext_in. intros k Hk.
  apply list_elem_of_In in Hk.
  apply objects_get_related. rewrite Hlook.
  rewrite with_key_in_ by done. by rewrite lookup_empty.
Qed.

Lemma batch_load_ok_inv (l : nat) (self : ModelLoader) (keys : list Key)
    (s : State) (values : list AttrValue) :
  (batch_load engine l self keys s).2 = Ok values →
  ∃ q col,
    _get_query self = Ok q
    ∧ model_getattr (parent_model self) (parent_model_pk_field self) = Ok col
    ∧ (∀ o, o ∈ selected col q keys →
            is_Some (attrs o !! model_relation_field self))
    ∧ values = map (related self (engine q)) keys.
Proof.
  intros Hrun.
  assert (∃ q col,
            _get_query self = Ok q
            ∧ model_getattr (parent_model self) (parent_model_pk_field self)
              = Ok col
            ∧ ∀ o, o ∈ selected col q keys →
                   is_Some (attrs o !! model_relation_field self))
    as (q & col & Hq & Hcol & Hrel).
  { revert Hrun. unfold batch_load, mbind, lift, iterate, mret.
    destruct (_get_query self) as [q|e] eqn:Hq; [|done].
    destruct (model_getattr _ _) as [col|e]; [|done].
    cbn [rows_of]. rewrite (get_query_rows _ _ _ Hq).
    destruct (build_objects _ _ _) as [objects|e] eqn:Hb; [|done].
    intros _. exists q, col. split; [done|]. split; [done|].
    by eapply build_objects_ok_inv. }
  exists q, col. split; [done|]. split; [done|]. split; [done|].
  rewrite (batch_load_ok_intro l self keys s q col Hq Hcol Hrel) in Hrun.
  by injection Hrun.
Qed.

(** X5. Whatever it returns, one call of the batch function adds at most
    one retrieval to the log and changes nothing else in the store; the
    retrieval is the parent query joined to a subquery over the child
    model, restricted to the given keys on the attribute that the parent
    model has under the name of its key field: its key column, whenever
    that name is a column of the parent model. *)
Theorem batch_retrieval_is_restricted_to_keys (l : nat) (self : ModelLoader)
    (keys : list Key) (s : State) :
  loaders s !! l = Some self →
  ∃ log,
    (batch_load_fn engine l keys s).1 = set_executed s (executed s ++ log)
    ∧ (log = []
       ∨ ∃ sub col,
           source_model sub = model self
           ∧ model_getattr (parent_model self) (parent_model_pk_field self)
             = Ok col
           ∧ attr_name col = parent_model_pk_field self
           ∧ (parent_model_pk_field self ∈ (columns (parent_model self)).*1 →
              col = InstrumentedAttribute (model_name (parent_model self))
                      (parent_model_pk_field self))
           ∧ log = [(l, filter_in (joined self sub) col keys)]).
Proof.
  intros Hl. unfold batch_load_fn, mbind, deref. rewrite Hl.
  unfold batch_load, mbind, lift, iterate, mret.
  destruct (_get_query self) as [q|e] eqn:Hq.
  2:{ exists []. split; [|by left]. rewrite app_nil_r. by destruct s. }
  destruct (model_getattr _ _) as [col|e] eqn:Hcol.
  2:{ exists []. split; [|by left]. rewrite app_nil_r. by destruct s. }
  destruct (get_query_shape _ _ Hq) as (sub & -> & Hsub).
  eexists. split; [by destruct (build_objects _ _ _)|].
  right. exists sub, col. split; [done|]. split; [done|].
  split; [by eapply model_getattr_name|]. split; [|done].
  intros Hin. unfold model_getattr in Hcol.
  rewrite decide_True in Hcol by (apply elem_of_app; by left).
  by injection Hcol as <-.
Qed.

(** X6. When the query does not compose, the batch function raises the
    error of the composer, runs no retrieval and leaves the store as it
    is. *)
Theorem batch_raises_before_retrieval (l : nat) (self : ModelLoader)
    (keys : list Key) (s : State) (e : Exception) :
  loaders s !! l = Some self →
  _get_query self = Raise e →
  batch_load_fn engine l keys s = (s, Raise e).
Proof.
  intros Hl Hq. unfold batch_load_fn, mbind, deref. rewrite Hl.
  unfold batch_load, mbind, lift. by rewrite Hq.
Qed.

(** X7. The batch function has no guard for an empty key list: called
    without keys it still runs its retrieval, and returns the empty
    list. *)
Theorem batch_of_no_keys (l : nat) (self : ModelLoader) (s : State)
    (q : Query) :
  loaders s !! l = Some self →
  _get_query self = Ok q →
  is_Ok (model_getattr (parent_model self) (parent_model_pk_field self))
  = true →
  ∃ col,
    batch_load_fn engine l [] s
    = (set_executed s (executed s ++ [(l, filter_in q col [])]), Ok []).
Proof.
  intros Hl Hq Hcol.
  destruct (model_getattr _ _) as [col|e] eqn:Hc; [|done].
  exists col. unfold batch_load_fn, mbind, deref. rewrite Hl.
  apply injective_projections.
  - by apply batch_load_composed_log.
  - rewrite (batch_load_ok_intro l self [] s q col Hq Hc); [done|].
    intros o Ho. apply list_elem_of_filter in Ho as [Hin _].
    unfold in_ in Hin. destruct (attr_key o _); [|done].
    apply bool_decide_eq_true in Hin. by apply elem_of_nil in Hin.
Qed.

Lemma selected_app (col : ClassAttr) (q : Query) (k1 k2 : list Key)
    (o : OrmObject) :
  o ∈ selected col q (k1 ++ k2)
  ↔ o ∈ selected col q k1 ∨ o ∈ selected col q k2.
Proof.
  rewrite !list_elem_of_filter. unfold in_.
  destruct (attr_key o _) as [k|]; [|intuition discriminate].
  rewrite !bool_decide_eq_true, elem_of_app. tauto.
Qed.

(** X8. Batching is transparent: the batch function succeeds on two key
    lists together exactly when it succeeds on each of them, and then the
    results for the concatenation are the results for the one followed by
    the results for the other. *)
Theorem batch_of_concatenation (l : nat) (self : ModelLoader)
    (k1 k2 : list Key) (s : State) :
  loaders s !! l = Some self →
  (is_Ok (batch_load_fn engine l (k1 ++ k2) s).2 = true
   ↔ is_Ok (batch_load_fn engine l k1 s).2 = true
     ∧ is_Ok (batch_load_fn engine l k2 s).2 = true)
  ∧ ∀ v v1 v2,
      (batch_load_fn engine l (k1 ++ k2) s).2 = Ok v →
      (batch_load_fn engine l k1 s).2 = Ok v1 →
      (batch_load_fn engine l k2 s).2 = Ok v2 →
      v = v1 ++ v2.
Proof.
  intros Hl. unfold batch_load_fn, mbind, deref. rewrite Hl.
  assert (Hinv : ∀ keys, is_Ok (batch_load engine l self keys s).2 = true →
                         ∃ v, (batch_load engine l self keys s).2 = Ok v).
  { intros keys. destruct (batch_load _ _ _ _ _).2 as [v|]; [eauto|done]. }
  split; [split|].
  - intros (v & Hv)%Hinv.
    destruct (batch_load_ok_inv _ _ _ _ _ Hv)
      as (q & col & Hq & Hcol & Hrel & _).
    split.
    + rewrite (batch_load_ok_intro l self k1 s q col Hq Hcol); [done|].
      intros o Ho. apply Hrel, selected_app. by left.
    + rewrite (batch_load_ok_intro l self k2 s q col Hq Hcol); [done|].
      intros o Ho. apply Hrel, selected_app. by right.
  - intros [(v1 & Hv1)%Hinv (v2 & Hv2)%Hinv].
    destruct (batch_load_ok_inv _ _ _ _ _ Hv1)
      as (q & col & Hq & Hcol & Hrel1 & _).
    destruct (batch_load_ok_inv _ _ _ _ _ Hv2)
      as (q' & col' & Hq' & Hcol' & Hrel2 & _).
    rewrite Hq in Hq'. injection Hq' as <-.
    rewrite Hcol in Hcol'. injection Hcol' as <-.
    rewrite (batch_load_ok_intro l self (k1 ++ k2) s q col Hq Hcol); [done|].
    intros o [Ho|Ho]%selected_app; auto.
  - intros v v1 v2 Hv Hv1 Hv2.
    destruct (batch_load_ok_inv _ _ _ _ _ Hv) as (q & ? & Hq & _ & _ & ->).
    destruct (batch_load_ok_inv _ _ _ _ _ Hv1) as (q1 & ? & Hq1 & _ & _ & ->).
    destruct (batch_load_ok_inv _ _ _ _ _ Hv2) as (q2 & ? & Hq2 & _ & _ & ->).
    rewrite Hq in Hq1, Hq2. injection Hq1 as <-. injection Hq2 as <-.
    apply map_app.
Qed.

End MoreBatch.

(** ** Further properties of the registry and the resolver *)

Section MoreStore.

Variable to_snake_case : string -> string.
Variable engine : Query -> list OrmObject.

(** The loader lookup and the loader constructor on the arguments of an
    invocation, and the tree-location key of an invocation. *)
Local Abbreviation lookup i :=
  (_get_or_create_data_loader to_snake_case (inv_root i) (inv_model i)
     (inv_info i) (inv_kwargs i)).
Local Abbreviation construct i :=
  (ModelLoader_init to_snake_case (type_of (inv_root i)) (inv_model i)
     (inv_info i) (inv_kwargs i)).
Local Abbreviation location i := (data_loader_key (inv_info i)).


Lemma all_registered_quiet (s s' : State) :
  quiet s s' → all_registered s → all_registered s'.
Proof.
  intros Hq [Hwf Hsize Honto]. split.
  - by eapply quiet_wf.
  - by rewrite (quiet_registry _ _ Hq), (quiet_length _ _ Hq).
  - by rewrite (quiet_registry _ _ Hq), (quiet_length _ _ Hq).
Qed.

Lemma all_registered_lookup (root : OrmObject) (m : Model)
    (info : ResolveInfo) (args : gmap string PyVal) (s s' : State)
    (r : Result nat) :
  all_registered s →
  _get_or_create_data_loader to_snake_case root m info args s = (s', r) →
  all_registered s'.
Proof.
  intros [Hwf Hsize Honto] Hrun.
  pose proof (lookup_wf _ _ _ _ _ _ _ _ Hwf Hrun) as Hwf'.
  destruct (lookup_cases _ _ _ _ _ _ _ _ (wf_slot _ Hwf) Hrun) as (Hout & _).
  destruct Hout as [l _ _ ->|e _ _ _ Hreg Hld|ld Hk _ _ Hreg Hld].
  - by split.
  - split; [done|by rewrite Hreg, Hld|by rewrite Hreg, Hld].
  - split; [done|..].
    + rewrite Hreg, Hld, length_app, map_size_insert_None by done.
      simpl. lia.
    + intros l. rewrite Hreg, Hld, length_app. simpl. intros Hlt.
      destruct (decide (l = length (loaders s))) as [->|Hne].
      * exists (data_loader_key info). apply lookup_insert_eq.
      * destruct (Honto l) as [k Hl]; [lia|].
        exists k. rewrite lookup_insert_ne; [done|]. congruence.
Qed.

Lemma all_registered_event (e : Event) (s : State) :
  all_registered s → all_registered (run_event to_snake_case engine e s).
Proof.
  intros Hs. destruct e as [i|i|]; simpl.
  - destruct (_get_or_create_data_loader _ _ _ _ _ s) as [s' r] eqn:Hrun.
    by eapply all_registered_lookup.
  - destruct (connection_resolver _ _ _ _ _ s) as [s' r] eqn:Hrun.
    destruct (resolver_cases _ _ _ _ _ _ _ _ (reg_wf _ Hs) Hrun)
      as (s1 & rl & Hlook & Hq & _).
    eapply all_registered_quiet; [done|]. by eapply all_registered_lookup.
  - destruct (end_of_wave engine s) as [s' outs] eqn:Hrun.
    destruct (end_of_wave_spec _ _ _ _ Hrun) as (Hq & _).
    by eapply all_registered_quiet.
Qed.

(** X10. At any point of a request the registry holds exactly the
    loaders that were constructed: it has as many entries as there are
    loaders, every loader is the entry of a tree-location, and of one
    only. *)
Theorem registry_holds_every_loader (s_init : State) (es : list Event) :
  request_start s_init →
  size (registry (run_events to_snake_case engine es s_init))
  = length (loaders (run_events to_snake_case engine es s_init))
  ∧ ∀ l, (l < length (loaders (run_events to_snake_case engine es s_init)))%nat →
         ∃ k, registry (run_events to_snake_case engine es s_init) !! k
              = Some l
              ∧ ∀ k', registry (run_events to_snake_case engine es s_init)
                      !! k' = Some l → k' = k.
Proof.
  intros (Habs & Hld & Hex).
  assert (Hstart : all_registered s_init).
  { split; [by apply wf_absent|..].
    - by rewrite (registry_absent _ Habs), Hld.
    - rewrite Hld. simpl. lia. }
  assert (Hall : all_registered (run_events to_snake_case engine es s_init)).
  { clear Habs Hld Hex. revert s_init Hstart.
    induction es as [|e es IH]; intros s Hs; [done|].
    simpl. apply IH. by apply all_registered_event. }
  destruct Hall as [Hwf Hsize Honto]. split; [done|].
  intros l Hl. destruct (Honto l Hl) as [k Hk]. exists k. split; [done|].
  intros k' Hk'. by eapply (wf_inj _ Hwf).
Qed.

Lemma lookup_fails_in_place (root : OrmObject) (m : Model)
    (info : ResolveInfo) (args : gmap string PyVal) (s : State)
    (e : Exception) :
  (∃ ref, slot s = Some (CtxDict ref) ∧ (ref < length (dicts s))%nat) →
  registry s !! data_loader_key info = None →
  ModelLoader_init to_snake_case (type_of root) m info args = Raise e →
  _get_or_create_data_loader to_snake_case root m info args s = (s, Raise e).
Proof.
  intros Hslot Hk Hinit.
  destruct (get_data_loaders_spec s (or_intror Hslot))
    as (ref & s1 & Hget & Hs1 & Hlt & Hreg & _ & _ & _ & _ & Hold).
  destruct Hslot as (r0 & Hr0 & _). destruct (Hold r0 Hr0) as [-> ->].
  unfold _get_or_create_data_loader, mbind. rewrite Hget.
  unfold registry_lookup. rewrite (registry_at _ _ Hs1 Hlt), Hk.
  unfold lift. by rewrite Hinit.
Qed.

(** X11. A lookup whose loader construction raises stores nothing under
    the tree-location: the registry and the loaders are as before, no
    query has run, and the same lookup made again raises the same
    exception and leaves the store as it is. *)
Theorem failed_construction_is_not_registered (s s' : State)
    (i : Invocation) (e : Exception) :
  wf s →
  lookup i s = (s', Raise e) →
  construct i = Raise e
  ∧ registry s' = registry s
  ∧ registry s' !! location i = None
  ∧ loaders s' = loaders s
  ∧ executed s' = executed s
  ∧ lookup i s' = (s', Raise e).
Proof.
  intros Hwf Hrun.
  destruct (lookup_cases _ _ _ _ _ _ _ _ (wf_slot _ Hwf) Hrun)
    as (Hout & Hex & _ & ref & Href & Hlt & _).
  destruct Hout as [l _ ? _|e' Hk Hinit [= <-] Hreg Hld|ld _ _ ? _ _];
    [done| |done].
  split; [done|]. split; [done|]. split; [by rewrite Hreg|].
  split; [done|]. split; [done|].
  apply lookup_fails_in_place; [eauto|by rewrite Hreg|done].
Qed.

(** X12. A resolver runs no query, whatever the store is and whatever
    the resolver returns or raises: retrievals are left to the batch. *)
Theorem resolver_runs_no_query (m : Model) (root : OrmObject)
    (info : ResolveInfo) (kwargs : gmap string PyVal) (s : State) :
  executed (connection_resolver to_snake_case m root info kwargs s).1
  = executed s.
Proof.
  unfold connection_resolver, mbind.
  pose proof (lookup_never_executes to_snake_case root m info kwargs s) as Hl.
  destruct (_get_or_create_data_loader _ _ _ _ _ s) as [s1 [l|e]];
    simpl in Hl; [|done].
  unfold deref. destruct (loaders s1 !! l) as [ld|] eqn:Hld; [|done].
  unfold lift.
  destruct (parent_model_object_to_key ld root) as [[key|rows]|e]; [|done..].
  unfold load. rewrite Hld. by case_decide.
Qed.

(** X13. When a resolver returns a handle, the loader of the handle is the
    one registered at the tree-location of the field, and the key of the
    handle is the value that the root object has for the key field of
    that loader; the key is known to the loader from then on. *)
Theorem resolver_submits_root_key (m : Model) (root : OrmObject)
    (info : ResolveInfo) (kwargs : gmap string PyVal) (s s' : State)
    (l : nat) (key : Key) :
  wf s →
  connection_resolver to_snake_case m root info kwargs s
  = (s', Ok (l, key)) →
  ∃ loader,
    loaders s' !! l = Some loader
    ∧ registry s' !! data_loader_key info = Some l
    ∧ attrs root !! parent_model_pk_field loader = Some (AScalar key)
    ∧ key ∈ _promise_cache loader.
Proof.
  intros Hwf Hres.
  destruct (resolver_cases _ _ _ _ _ _ _ _ Hwf Hres)
    as (s1 & rl & Hrun & Hq & _ & Hrl).
  destruct rl as [l0|e]; [|by destruct Hrl].
  destruct Hrl as (_ & ld & ld' & Hld & Hld' & _ & _ & Hok).
  destruct (Hok l key eq_refl) as [-> Hin].
  exists ld'. split; [done|]. split.
  { rewrite (quiet_registry _ _ Hq). by eapply lookup_registered. }
  split; [|done].
  destruct (quiet_config _ _ _ _ Hq Hld) as (ld'' & Hld'' & Hc).
  rewrite Hld' in Hld''. injection Hld'' as <-.
  change (attrs root !! parent_model_pk_field (config ld')
          = Some (AScalar key)).
  rewrite Hc. simpl.
  revert Hres. unfold connection_resolver, mbind. rewrite Hrun.
  unfold deref. rewrite Hld. unfold lift, parent_model_object_to_key, getattr.
  destruct (attrs root !! parent_model_pk_field ld) as [[k|rows]|]; [|done..].
  unfold load. rewrite Hld.
  case_decide; intros Heq; apply (f_equal snd) in Heq; simpl in Heq;
    congruence.
Qed.

End MoreStore.

(** ** Field classes and the field factory *)

(** X14. The field constructor keeps an explicit filter argument, fills a
    missing one in from the filter set of the node's model, leaves every
    other argument alone, and raises nothing when the model has no filter
    set; a field made from its own arguments again is the same field. *)
Theorem field_init_fills_filter_argument (cls : FieldClass)
    (connection : Connection) (kwargs : gmap string FieldArg) (key : string) :
  field_kwargs (FilterableConnectionField_init cls connection kwargs) !! key
  = (if decide (key = cls_filter_arg cls)
     then match kwargs !! key with
          | Some given => Some given
          | None =>
              filter_set_arg <$> cls_filters cls !! node_model connection
          end
     else kwargs !! key)
  ∧ FilterableConnectionField_init cls connection
      (field_kwargs (FilterableConnectionField_init cls connection kwargs))
    = FilterableConnectionField_init cls connection kwargs.
Proof.
  unfold FilterableConnectionField_init. simpl. split.
  - case_decide as Hkey.
    + subst key. case_bool_decide as Hin.
      * by destruct Hin as [a ->].
      * apply eq_None_not_Some in Hin. rewrite Hin.
        destruct (cls_filters cls !! node_model connection) as [fs|]; simpl.
        -- by rewrite lookup_insert_eq.
        -- done.
    + case_bool_decide; [done|].
      destruct (cls_filters cls !! node_model connection); [|done].
      by rewrite lookup_insert_ne.
  - f_equal.
    destruct (bool_decide (is_Some (kwargs !! cls_filter_arg cls))) eqn:Hin.
    + by rewrite Hin.
    + destruct (cls_filters cls !! node_model connection) as [fs|].
      * rewrite bool_decide_eq_true_2; [done|].
        rewrite lookup_insert_eq. eauto.
      * by rewrite Hin.
Qed.

(** X15. On a supported version [__init_subclass__] leaves no class
    without a factory, changes nothing but the factory, and changes
    nothing when run again; a class that comes with a factory, its own or
    an inherited one, keeps it whatever filters it declares; and on an
    older version the class is left as it is. *)
Theorem init_subclass_provides_factory (cls : FieldClass) :
  cls_factory (FilterableConnectionField_init_subclass false cls) ≠ None
  ∧ cls_filter_arg (FilterableConnectionField_init_subclass false cls)
    = cls_filter_arg cls
  ∧ cls_filters (FilterableConnectionField_init_subclass false cls)
    = cls_filters cls
  ∧ FilterableConnectionField_init_subclass false
      (FilterableConnectionField_init_subclass false cls)
    = FilterableConnectionField_init_subclass false cls
  ∧ (∀ lt, cls_factory cls ≠ None →
           FilterableConnectionField_init_subclass lt cls = cls)
  ∧ FilterableConnectionField_init_subclass true cls = cls.
Proof.
  assert (Hkeep : ∀ lt c, cls_factory c ≠ None →
                          FilterableConnectionField_init_subclass lt c = c).
  { intros lt c Hc. unfold FilterableConnectionField_init_subclass.
    destruct lt; [done|].
    rewrite (bool_decide_eq_false_2 (cls_factory c = None)) by done.
    by rewrite andb_false_r. }
  assert (Hsome : cls_factory (FilterableConnectionField_init_subclass false cls)
                  ≠ None).
  { unfold FilterableConnectionField_init_subclass.
    destruct (bool_decide (cls_filters cls ≠ ∅)); simpl;
      case_bool_decide as Hf; simpl; congruence. }
  split; [done|]. split; [|split; [|split; [|split]]].
  - unfold FilterableConnectionField_init_subclass.
    by repeat (case_bool_decide; simpl).
  - unfold FilterableConnectionField_init_subclass.
    by repeat (case_bool_decide; simpl).
  - by apply Hkeep.
  - intros lt. apply Hkeep.
  - done.
Qed.

(** X16. For a class without a factory that declares filters,
    [__init_subclass__] builds a filterable factory that carries the
    filters of the class and a loader class whose filter argument is the
    one of the class; for a class without a factory and without filters it
    installs the default factory. *)
Theorem init_subclass_builds_factory (cls : FieldClass) :
  cls_factory cls = None →
  (cls_filters cls ≠ ∅ →
   ∃ f, cls_factory (FilterableConnectionField_init_subclass false cls)
        = Some (filterable_factory f)
        ∧ model_filters f = cls_filters cls
        ∧ class_filter_arg (model_loader_class f) = cls_filter_arg cls)
  ∧ (cls_filters cls = ∅ →
     cls_factory (FilterableConnectionField_init_subclass false cls)
     = Some default_connection_field_factory).
Proof.
  intros Hnone. unfold FilterableConnectionField_init_subclass.
  rewrite Hnone. split.
  - intros Hf. rewrite bool_decide_eq_true_2 by done. simpl.
    eexists. split; [done|]. split; [done|]. simpl.
    case_bool_decide as Harg; [done|].
    by rewrite Harg.
  - intros Hf. rewrite bool_decide_eq_false_2 by (by intros H). done.
Qed.


(** X18. The field that the factory returns has the arguments it was
    called with, plus the filter set of the model under the filter
    argument of the loader class when the model has a filter set and the
    argument is not given; the field class adds nothing. *)
Theorem factory_call_sets_default_filter (self : FilterableFieldFactory)
    (relationship : Relationship) (types : gmap Model GrapheneType)
    (kwargs : gmap string FieldArg) (field : Field) (key : string) :
  FilterableFieldFactory_call self relationship (Some types) kwargs
  = Ok field →
  field_kwargs field !! key
  = match kwargs !! key with
    | Some given => Some given
    | None =>
        if decide (key = class_filter_arg (model_loader_class self))
        then filter_set_arg
               <$> model_filters self !! mapper_entity relationship
        else None
    end.
Proof.
  unfold FilterableFieldFactory_call.
  destruct (types !! mapper_entity relationship) as [t|]; [|done].
  intros [= <-].
  destruct (field_init_fills_filter_argument NestedFilterableConnectionField
              (type_connection t)
              (match model_filters self !! mapper_entity relationship with
               | Some fs =>
                   setdefault (class_filter_arg (model_loader_class self))
                     (filter_set_arg fs) kwargs
               | None => kwargs
               end) key) as [-> _].
  simpl. rewrite lookup_empty. simpl.
  assert (Hset : (match model_filters self !! mapper_entity relationship with
                  | Some fs =>
                      setdefault (class_filter_arg (model_loader_class self))
                        (filter_set_arg fs) kwargs
                  | None => kwargs
                  end) !! key
                 = match kwargs !! key with
                   | Some given => Some given
                   | None =>
                       if decide (key = class_filter_arg
                                          (model_loader_class self))
                       then filter_set_arg
                              <$> model_filters self
                                  !! mapper_entity relationship
                       else None
                   end).
  { destruct (model_filters self !! mapper_entity relationship) as [fs|];
      simpl.
    - unfold setdefault.
      destruct (kwargs !! class_filter_arg (model_loader_class self))
        as [a|] eqn:Ha.
      + destruct (kwargs !! key) eqn:Hk; [done|].
        case_decide; [congruence|done].
      + case_decide as Hkey.
        * subst key. by rewrite lookup_insert_eq, Ha.
        * rewrite lookup_insert_ne by done. by destruct (kwargs !! key).
    - destruct (kwargs !! key); [done|]. by case_decide. }
  rewrite Hset. clear Hset.
  set (rhs := match kwargs !! key with
              | Some given => Some given
              | None => _
              end).
  destruct (decide (key = DEFAULT_FILTER_ARG)); [by destruct rhs|done].
Qed.

Section CustomFilterArgument.

Variable to_snake_case : string -> string.
Variable super_get_query :
  Model -> ResolveInfo -> PyVal -> gmap string PyVal -> Result Query.

(** X19. A field class with a filter argument of its own name gets a
    factory whose nested fields declare the filter set under that name,
    and its top-level query applies a filter passed under that name; but
    the loader of a nested field is always a [ModelLoader], which reads
    [filters]: a filter passed to the nested field under the name it
    declares does not reach the batch query. *)
Theorem custom_filter_argument_not_read_by_loader (cls : FieldClass)
    (m : Model) (fs : FilterSet) (types : gmap Model GrapheneType)
    (t : GrapheneType) (v : PyVal) :
  cls_filter_arg cls ≠ DEFAULT_FILTER_ARG →
  cls_filter_arg cls ≠ "sort" →
  cls_factory cls = None →
  cls_filters cls !! m = Some fs →
  types !! m = Some t →
  truthy v = true →
  ∃ f,
    cls_factory (FilterableConnectionField_init_subclass false cls)
    = Some (filterable_factory f)
    ∧ (∃ field,
         FilterableFieldFactory_call f {| mapper_entity := m |} (Some types) ∅
         = Ok field
         ∧ field_kwargs field = {[ cls_filter_arg cls := filter_set_arg fs ]})
    ∧ (∀ rinfo q fs',
         super_get_query m rinfo PNone {[ cls_filter_arg cls := v ]} = Ok q →
         get_filter_set (FilterableConnectionField_init_subclass false cls)
           rinfo = Ok fs' →
         get_query_with_filters super_get_query
           (FilterableConnectionField_init_subclass false cls) m rinfo PNone
           {[ cls_filter_arg cls := v ]}
         = Ok (filter_set_filter fs' rinfo q v))
    ∧ (∀ pm rinfo self,
         ModelLoader_init to_snake_case pm m rinfo
           {[ cls_filter_arg cls := v ]} = Ok self →
         _get_query self = Ok (joined self (get_query m))).
Proof.
  intros Harg Hsort Hnone Hfs Ht Hv.
  assert (Hne : cls_filters cls ≠ ∅).
  { intros Hempty. by rewrite Hempty, lookup_empty in Hfs. }
  destruct (proj1 (init_subclass_builds_factory cls Hnone) Hne)
    as (f & Hf & Hmf & Hfa).
  destruct (init_subclass_provides_factory cls) as (_ & Hsame & _).
  exists f. split; [done|]. split; [|split].
  - unfold FilterableFieldFactory_call. simpl. rewrite Ht, Hmf, Hfs, Hfa.
    eexists. split; [done|].
    unfold FilterableConnectionField_init, setdefault. simpl.
    rewrite lookup_empty.
    rewrite lookup_insert_ne by done.
    rewrite lookup_empty.
    rewrite bool_decide_eq_false_2 by (by intros [? ?]).
    by rewrite lookup_empty.
  - intros rinfo q fs' Hq Hset. unfold get_query_with_filters.
    rewrite Hq, Hset, Hsame. cbn [rbind].
    unfold dict_get. rewrite lookup_singleton_eq. simpl.
    by rewrite Hv.
  - intros pm rinfo self Hinit.
    destruct (init_fields _ _ _ _ _ _ Hinit) as (Hfa' & Hargs & _ & Hm & _).
    rewrite <- Hm. apply get_query_no_filter_no_sort.
    + rewrite Hargs, Hfa'. unfold dict_get.
      by rewrite lookup_singleton_ne.
    + rewrite Hargs. unfold dict_get.
      by rewrite lookup_singleton_ne.
Qed.

End CustomFilterArgument.

(** ** The loaders of a request *)

Section Loaders.

Variable to_snake_case : string -> string.
Variable engine : Query -> list OrmObject.


Lemma all_constructed_quiet (s s' : State) :
  quiet s s' →
  all_constructed to_snake_case s → all_constructed to_snake_case s'.
Proof.
  intros Hq Hs c. rewrite (quiet_loaders _ _ Hq). apply Hs.
Qed.

Lemma all_constructed_lookup (root : OrmObject) (m : Model)
    (rinfo : ResolveInfo) (args : gmap string PyVal) (s s' : State)
    (r : Result nat) :
  wf s → all_constructed to_snake_case s →
  _get_or_create_data_loader to_snake_case root m rinfo args s = (s', r) →
  all_constructed to_snake_case s'.
Proof.
  intros Hwf Hs Hrun.
  destruct (lookup_cases _ _ _ _ _ _ _ _ (wf_slot _ Hwf) Hrun) as (Hout & _).
  destruct Hout as [l _ _ ->|e _ _ _ _ Hld|ld _ Hinit _ _ Hld]; [done|..].
  - intros c. rewrite Hld. apply Hs.
  - intros c. rewrite Hld, fmap_app.
    intros [Hc|Hc%list_elem_of_singleton]%elem_of_app; [by apply Hs|].
    by exists (type_of root), m, rinfo, args, ld.
Qed.

Lemma all_constructed_event (e : Event) (s : State) :
  wf s → all_constructed to_snake_case s →
  all_constructed to_snake_case (run_event to_snake_case engine e s).
Proof.
  intros Hwf Hs. destruct e as [i|i|]; simpl.
  - destruct (_get_or_create_data_loader _ _ _ _ _ s) as [s' r] eqn:Hrun.
    by eapply all_constructed_lookup.
  - destruct (connection_resolver _ _ _ _ _ s) as [s' r] eqn:Hrun.
    destruct (resolver_cases _ _ _ _ _ _ _ _ Hwf Hrun)
      as (s1 & rl & Hlook & Hq & _).
    eapply all_constructed_quiet; [done|].
    by eapply all_constructed_lookup.
  - destruct (end_of_wave engine s) as [s' outs] eqn:Hrun.
    destruct (end_of_wave_spec _ _ _ _ Hrun) as (Hq & _).
    by eapply all_constructed_quiet.
Qed.

(** X20. At any point of a request, every loader of the heap is as the
    constructor built it: it reads the filter argument [filters], its key
    field is the only primary-key field of its parent model, and its
    relation is the attribute of the parent model class (a column, a
    relationship or any other attribute of the class) that its relation
    field names. *)
Theorem loaders_stay_as_constructed (s_init : State) (es : list Event)
    (l : nat) (loader : ModelLoader) :
  request_start s_init →
  loaders (run_events to_snake_case engine es s_init) !! l = Some loader →
  filter_arg loader = DEFAULT_FILTER_ARG
  ∧ _get_model_pk_field_name (parent_model loader)
    = Ok (parent_model_pk_field loader)
  ∧ model_relation_field loader = to_snake_case (field_name (info loader))
  ∧ model_getattr (parent_model loader) (model_relation_field loader)
    = Ok (relation loader).
Proof.
  intros (Habs & Hld & Hex) Hl.
  assert (Hall : wf (run_events to_snake_case engine es s_init)
                 ∧ all_constructed to_snake_case
                     (run_events to_snake_case engine es s_init)).
  { assert (Hstart : wf s_init ∧ all_constructed to_snake_case s_init).
    { split; [by apply wf_absent|]. intros c. rewrite Hld.
      by intros Hc%elem_of_nil. }
    clear Habs Hld Hex Hl. revert s_init Hstart.
    induction es as [|e es IH]; intros s [Hwf Hs]; [done|].
    simpl. apply IH. split; [by apply wf_event|].
    by apply all_constructed_event. }
  destruct Hall as [_ Hall].
  destruct (Hall (config loader)) as (pm & m & rinfo & args & ld & Hinit & Hc).
  { apply list_elem_of_fmap. exists loader. split; [done|].
    by eapply list_elem_of_lookup_2. }
  change (filter_arg (config loader) = DEFAULT_FILTER_ARG
          ∧ _get_model_pk_field_name (parent_model (config loader))
            = Ok (parent_model_pk_field (config loader))
          ∧ model_relation_field (config loader)
            = to_snake_case (field_name (info (config loader)))
          ∧ model_getattr (parent_model (config loader))
              (model_relation_field (config loader))
            = Ok (relation (config loader))).
  rewrite Hc. simpl.
  revert Hinit. unfold ModelLoader_init.
  destruct (_get_model_pk_field_name pm) as [f|e] eqn:Hpk; [|done]. simpl.
  destruct (model_getattr pm _) as [r|e] eqn:Hrel; [|done]. simpl.
  by intros [= <-].
Qed.

End Loaders.


Lemma pk_field_name_witness :
  _get_model_pk_field_name User = Ok "id"
  ∧ ((∃ c, ("id", c) ∈ columns User ∧ primary_key c = true)
     ∧ (∀ name c,
          (name, c) ∈ columns User → primary_key c = true → name = "id")
     ∧ pk_count User = 1%nat)
  ∧ _get_model_pk_field_name Pair = Raise (ModelNotSupported 2 "Pair")
  ∧ (ModelNotSupported 2 "Pair"
     = ModelNotSupported (pk_count Pair) (model_name Pair)
     ∧ pk_count Pair ≠ 1%nat)
  ∧ _get_model_pk_field_name Post ≠ Raise IndexError.
Proof.
  assert (H1 : _get_model_pk_field_name User = Ok "id") by reflexivity.
  assert (H2 : _get_model_pk_field_name Pair
               = Raise (ModelNotSupported 2 "Pair")) by reflexivity.
  split; [exact H1|].
  split; [exact (proj1 (pk_field_name_is_the_only_key User) "id" H1)|].
  split; [exact H2|].
  split; [exact (proj1 (proj2 (proj2 (pk_field_name_is_the_only_key Pair)))
                   _ H2)|].
  exact (proj2 (proj2 (proj2 (pk_field_name_is_the_only_key Post)))).
Defined.

Lemma composer_errors_witness :
  _get_query (author_loader {[ "filters" := id_is_10 ]})
  = Raise AttributeError
  ∧ _get_query (posts_loader {[ "sort" := PList [PStr "name"] ]})
    = Raise AttributeError.
Proof.
  split.
  - apply (proj1 (composer_errors
                    (author_loader {[ "filters" := id_is_10 ]})));
      by vm_compute.
  - apply (proj2 (composer_errors
                    (posts_loader {[ "sort" := PList [PStr "name"] ]}))
             [PStr "name"]).
    + left. by vm_compute.
    + by vm_compute.
    + exists (PStr "name"). split; [by left|done].
Defined.

Lemma composer_order_witness :
  _get_query
    (posts_loader {[ "filters" := id_is_10; "sort" := PList [name_asc] ]})
  = Ok (joined
          (posts_loader {[ "filters" := id_is_10; "sort" := PList [name_asc] ]})
          (order_by
             (filter_set_filter "PostFilter" (posts_info 0) (get_query Post)
                id_is_10)
             [PStr "name ASC"])).
Proof.
  apply (composer_filters_then_sorts
           (posts_loader {[ "filters" := id_is_10; "sort" := PList [name_asc] ]})
           id_is_10 "PostFilter" [name_asc] [PStr "name ASC"]);
    by vm_compute.
Defined.

Lemma pagination_argument_witness :
  ∃ self',
    ModelLoader_init snake User Post (posts_info 0)
      (<[ "first" := PInt 10 ]> ∅) = Ok self'
    ∧ _get_query self' = _get_query (posts_loader ∅).
Proof.
  apply (composer_reads_filters_and_sort snake User Post (posts_info 0) ∅
           "first" (PInt 10) (posts_loader ∅)); by vm_compute.
Defined.

Lemma batch_retrieval_witness :
  ∃ log,
    (batch_load_fn db 0 [KInt 2] one_loader).1
    = set_executed one_loader (executed one_loader ++ log)
    ∧ (log = []
       ∨ ∃ sub col,
           source_model sub = model (posts_loader ∅)
           ∧ model_getattr (parent_model (posts_loader ∅))
               (parent_model_pk_field (posts_loader ∅)) = Ok col
           ∧ attr_name col = parent_model_pk_field (posts_loader ∅)
           ∧ (parent_model_pk_field (posts_loader ∅)
              ∈ (columns (parent_model (posts_loader ∅))).*1 →
              col = InstrumentedAttribute
                      (model_name (parent_model (posts_loader ∅)))
                      (parent_model_pk_field (posts_loader ∅)))
           ∧ log = [(0%nat,
                     filter_in (joined (posts_loader ∅) sub) col [KInt 2])]).
Proof.
  exact (batch_retrieval_is_restricted_to_keys db 0 (posts_loader ∅)
           [KInt 2] one_loader eq_refl).
Defined.

Lemma batch_error_witness :
  batch_load_fn db 0 [KInt 2] broken_loader
  = (broken_loader, Raise AttributeError).
Proof.
  apply (batch_raises_before_retrieval db 0
           (author_loader {[ "filters" := id_is_10 ]}));
    by vm_compute.
Defined.

Lemma batch_no_keys_witness :
  ∃ col,
    batch_load_fn db 0 [] one_loader
    = (set_executed one_loader
         (executed one_loader
          ++ [(0%nat,
               filter_in (joined (posts_loader ∅) (get_query Post)) col [])]),
       Ok []).
Proof.
  apply (batch_of_no_keys db 0 (posts_loader ∅) one_loader); by vm_compute.
Defined.

Lemma batch_concatenation_witness :
  [ARelated []; ARelated [row 10; row 11]; ARelated []]
  = [ARelated []] ++ [ARelated [row 10; row 11]; ARelated []].
Proof.
  apply (proj2 (batch_of_concatenation db 0 (posts_loader ∅)
                  [KInt 1] [KInt 2; KInt 3] one_loader eq_refl));
    by vm_compute.
Defined.

Lemma tree_location_witness :
  data_loader_key author_posts_info = ["article"; "author"; "posts"]
  ∧ data_loader_key (posts_info 3)
    = data_loader_key users_path ++ data_loader_key node_posts_path.
Proof.
  split.
  - apply (proj1 (data_loader_key_drops_indices author_posts_info
                    author_posts_info author_posts_info
                    ["article"; "author"; "posts"] 0)).
    reflexivity.
  - apply (proj2 (proj2 (data_loader_key_drops_indices (posts_info 3)
                           users_path node_posts_path [] 3))).
    reflexivity.
Defined.

Lemma registry_witness :
  size (registry (run_events snake db
                    [Resolve (posts_of 0 (user 1 []) ∅); Resolve author_posts;
                     Resolve (posts_of 1 (user 2 []) ∅); Wave;
                     Lookup comments]
                    (fresh Mapping)))
  = 2%nat.
Proof.
  destruct (registry_holds_every_loader snake db (fresh Mapping)
              [Resolve (posts_of 0 (user 1 []) ∅); Resolve author_posts;
               Resolve (posts_of 1 (user 2 []) ∅); Wave; Lookup comments])
    as [Hsize _]; [by vm_compute|].
  rewrite Hsize. by vm_compute.
Defined.

Lemma failed_construction_witness :
  ModelLoader_init snake User Post comments_info ∅ = Raise AttributeError
  ∧ registry
      (_get_or_create_data_loader snake (user 1 []) Post comments_info ∅
         (fresh Object)).1
    !! data_loader_key comments_info = None.
Proof.
  destruct (failed_construction_is_not_registered snake (fresh Object)
              (_get_or_create_data_loader snake (user 1 []) Post
                 comments_info ∅ (fresh Object)).1
              comments AttributeError)
    as (Hc & _ & Hnone & _).
  - apply wf_absent. vm_compute. by left.
  - apply run_result. by vm_compute.
  - split; [exact Hc|exact Hnone].
Defined.

Lemma resolver_key_witness :
  ∃ loader,
    loaders (connection_resolver snake Post (user 2 []) (posts_info 0) ∅
               (fresh Mapping)).1 !! 0%nat = Some loader
    ∧ registry (connection_resolver snake Post (user 2 []) (posts_info 0) ∅
                  (fresh Mapping)).1 !! data_loader_key (posts_info 0)
      = Some 0%nat
    ∧ attrs (user 2 []) !! parent_model_pk_field loader
      = Some (AScalar (KInt 2))
    ∧ KInt 2 ∈ _promise_cache loader.
Proof.
  apply (resolver_submits_root_key snake Post (user 2 []) (posts_info 0) ∅
           (fresh Mapping)).
  - apply wf_absent. by vm_compute.
  - apply run_result. by vm_compute.
Defined.

Lemma init_subclass_witness :
  FilterableConnectionField_init_subclass false
    {| cls_filter_arg := "where";
       cls_factory := Some default_connection_field_factory;
       cls_filters := {[ Post := "PostFilter" ]} |}
  = {| cls_filter_arg := "where";
       cls_factory := Some default_connection_field_factory;
       cls_filters := {[ Post := "PostFilter" ]} |}.
Proof.
  apply (proj1 (proj2 (proj2 (proj2 (proj2
           (init_subclass_provides_factory
              {| cls_filter_arg := "where";
                 cls_factory := Some default_connection_field_factory;
                 cls_filters := {[ Post := "PostFilter" ]} |})))))).
  done.
Defined.

Lemma built_factory_witness :
  ∃ f, cls_factory (FilterableConnectionField_init_subclass false where_field)
       = Some (filterable_factory f)
       ∧ model_filters f = cls_filters where_field
       ∧ class_filter_arg (model_loader_class f) = "where".
Proof.
  apply (proj1 (init_subclass_builds_factory where_field eq_refl)).
  intros Hempty. apply (f_equal (fun d => d !! Post)) in Hempty.
  by vm_compute in Hempty.
Defined.

Lemma factory_default_witness :
  field_kwargs
    (FilterableConnectionField_init NestedFilterableConnectionField
       PostConnection
       (setdefault "where" (filter_set_arg "PostFilter") ∅)) !! "where"
  = Some (filter_set_arg "PostFilter").
Proof.
  rewrite (factory_call_sets_default_filter where_factory
             {| mapper_entity := Post |} types ∅ _ "where");
    by vm_compute.
Defined.

Lemma custom_filter_argument_witness :
  ∃ f,
    cls_factory (FilterableConnectionField_init_subclass false where_field)
    = Some (filterable_factory f)
    ∧ (∃ field,
         FilterableFieldFactory_call f {| mapper_entity := Post |}
           (Some types) ∅ = Ok field
         ∧ field_kwargs field = {[ "where" := filter_set_arg "PostFilter" ]})
    ∧ (∀ rinfo q fs',
         plain_super Post rinfo PNone {[ "where" := id_is_10 ]} = Ok q →
         get_filter_set
           (FilterableConnectionField_init_subclass false where_field) rinfo
         = Ok fs' →
         get_query_with_filters plain_super
           (FilterableConnectionField_init_subclass false where_field) Post
           rinfo PNone {[ "where" := id_is_10 ]}
         = Ok (filter_set_filter fs' rinfo q id_is_10))
    ∧ (∀ pm rinfo self,
         ModelLoader_init snake pm Post rinfo {[ "where" := id_is_10 ]}
         = Ok self →
         _get_query self = Ok (joined self (get_query Post))).
Proof.
  apply (custom_filter_argument_not_read_by_loader snake plain_super
           where_field Post "PostFilter" types
           {| type_connection := PostConnection |} id_is_10);
    by vm_compute.
Defined.

Lemma constructed_loaders_witness :
  filter_arg (posts_loader ∅) = DEFAULT_FILTER_ARG
  ∧ _get_model_pk_field_name (parent_model (posts_loader ∅))
    = Ok (parent_model_pk_field (posts_loader ∅))
  ∧ model_relation_field (posts_loader ∅)
    = snake (field_name (info (posts_loader ∅)))
  ∧ model_getattr (parent_model (posts_loader ∅))
      (model_relation_field (posts_loader ∅))
    = Ok (relation (posts_loader ∅)).
Proof.
  apply (loaders_stay_as_constructed snake db (fresh Mapping)
           [Lookup (posts_of 0 (user 1 []) ∅); Wave] 0 (posts_loader ∅));
    by vm_compute.
Defined.
